(** * Beam vibration processor: the analysis core of Vibrational_Analysis.py

    A shallow embedding of [crop_signal], [find_crossings], [calc_frequency],
    [calc_youngs_modulus] and the aggregation loop of [main], with the
    properties the specification states about them.

    Numbers.  The script computes with Python and numpy floats.  They are
    modelled by exact rationals ([Q]): comparisons, products, quotients and
    sums are the mathematical ones, so rounding, overflow, [inf] and [nan]
    of finite operations are outside the model.  A division by zero is
    inside it, and depends on how the script holds the numerator: on a
    Python number it raises [ZeroDivisionError], on a [numpy.float64] it
    gives [inf] or [nan] (with a warning) and the script goes on.  So the
    modulus, the one value that is divided by a number that can be zero, is
    a [pyfloat]: finite, infinite or not a number.  Arrays are lists,
    indices are [nat].  Python exceptions are explicit: every function that
    can raise returns a [result]. *)

From Stdlib Require Import String QArith Qabs Qround Qpower ZArith List Sorted Lia Lqa Bool.
Import ListNotations.
Open Scope Q_scope.

(** ** Exceptions and the error monad *)

Inductive exn : Type :=
| ValueError          (* numpy: reduction of an empty array *)
| IndexError          (* index out of range *)
| ZeroDivisionError.  (* Python [/] with a zero divisor *)

Inductive result (A : Type) : Type :=
| Ok (a : A)
| Raise (e : exn).
Arguments Ok {A} a.
Arguments Raise {A} e.

Definition bind {A B : Type} (m : result A) (k : A -> result B) : result B :=
  match m with
  | Ok a => k a
  | Raise e => Raise e
  end.

Notation "x <- m ;; k" := (bind m (fun x => k))
  (at level 61, m at next level, right associativity).
Notation "' p <- m ;; k" := (bind m (fun x => match x with p => k end))
  (at level 61, p pattern, m at next level, right associativity).

(** ** Numbers and arrays *)

(** [x < y] on numbers, as a boolean. *)
Definition Qltb (x y : Q) : bool := negb (Qle_bool y x).

(** Python's [x / y] on Python numbers. *)
Definition py_div (x y : Q) : result Q :=
  if Qeq_bool y 0 then Raise ZeroDivisionError else Ok (x / y).

(** [np.abs(data)] *)
Definition np_abs (data : list Q) : list Q := map Qabs data.

(** [amp.max()]: the first largest element; an empty array has no maximum. *)
Definition np_max (amp : list Q) : result Q :=
  match amp with
  | [] => Raise ValueError
  | a :: rest => Ok (fold_left (fun m x => if Qltb m x then x else m) rest a)
  end.

(** [np.where(mask)[0]]: the indices of the true entries, ascending.
    [where_from i mask] numbers the entries from [i]. *)
Fixpoint where_from (i : nat) (mask : list bool) : list nat :=
  match mask with
  | [] => []
  | true :: m => i :: where_from (S i) m
  | false :: m => where_from (S i) m
  end.

Definition np_where (mask : list bool) : list nat := where_from 0 mask.

(** [amp > thresh], elementwise *)
Definition np_gt (amp : list Q) (thresh : Q) : list bool :=
  map (fun a => Qltb thresh a) amp.

(** [idx[0]] and [idx[-1]] *)
Definition first_index (idx : list nat) : result nat :=
  match idx with
  | [] => Raise IndexError
  | i :: _ => Ok i
  end.

Definition last_index (idx : list nat) : result nat :=
  match idx with
  | [] => Raise IndexError
  | i :: rest => Ok (last rest i)
  end.

(** [xs[lo:hi]] for [0 <= lo]; a slice clamps to the array. *)
Definition py_slice {A : Type} (xs : list A) (lo hi : nat) : list A :=
  firstn (hi - lo) (skipn lo xs).

(** [xs[i]] on an array *)
Definition py_get {A : Type} (xs : list A) (i : nat) : result A :=
  match nth_error xs i with
  | Some x => Ok x
  | None => Raise IndexError
  end.

(** ** Crop *)

Definition crop_signal (time data : list Q) (frac : Q)
  : result (list Q * list Q) :=
  let amp := np_abs data in
  m <- np_max amp ;;
  let thresh := frac * m in
  let idx := np_where (np_gt amp thresh) in
  i0 <- first_index idx ;;
  i1 <- last_index idx ;;
  Ok (py_slice time i0 (i1 + 1), py_slice data i0 (i1 + 1)).

(** ** Crossings *)

(** The body of the loop, for one [i] of [range(1, len(data))]. *)
Definition crossing_step (time data : list Q) (xs : list Q) (i : nat)
  : result (list Q) :=
  prev <- py_get data (i - 1) ;;
  cur <- py_get data i ;;
  if Qltb (prev * cur) 0
  then (t <- py_get time i ;; Ok (xs ++ [t]))
  else Ok xs.

Fixpoint crossing_loop (time data : list Q) (ixs : list nat) (xs : list Q)
  : result (list Q) :=
  match ixs with
  | [] => Ok xs
  | i :: rest =>
      xs' <- crossing_step time data xs i ;;
      crossing_loop time data rest xs'
  end.

Definition find_crossings (time data : list Q) : result (list Q) :=
  crossing_loop time data (seq 1 (length data - 1)) [].

(** ** Frequency *)

Definition calc_frequency (n_cross : Z) (t_period : Q) : result Q :=
  cycles <- (if (1 <? n_cross)%Z then py_div (inject_Z (n_cross - 1)) 2
             else Ok 0) ;;
  if Qltb 0 t_period then py_div cycles t_period else Ok 0.

(** ** Young's modulus *)

(** The cantilever constant and the Pa-to-GPa scale of the source *)
Definition cantilever_factor : Q := 56 # 100.
Definition giga : Q := 1000000000.

(** How the script holds a number: a Python int or float, or a numpy
    scalar taken from an array. *)
Inductive operand : Type := Python | Numpy.

(** A float as it leaves a division: finite, infinite with its sign, or
    not a number. *)
Inductive pyfloat : Type :=
| Finite (q : Q)
| Infinite (negative : bool)
| NaN.

(** [x / y] with the numerator held as [kind].  Python raises on a zero
    divisor; numpy gives [nan] for [0/0] and an infinity with the sign of
    the numerator otherwise. *)
Definition div_as (kind : operand) (x y : Q) : result pyfloat :=
  if Qeq_bool y 0 then
    match kind with
    | Python => Raise ZeroDivisionError
    | Numpy => Ok (if Qeq_bool x 0 then NaN else Infinite (Qltb x 0))
    end
  else Ok (Finite (x / y)).

(** [x / n] for a positive number [n]: an infinity and a nan stay. *)
Definition f_scale (x : pyfloat) (n : Q) : pyfloat :=
  match x with
  | Finite a => Finite (a / n)
  | Infinite negative => Infinite negative
  | NaN => NaN
  end.

(** [kind] is how the caller holds [f]; the other arguments are Python
    floats in [main].  [f/0.56] and the products keep the kind of [f]. *)
Definition calc_youngs_modulus (kind : operand) (f b h rho I L : Q)
  : result pyfloat :=
  let q := rho * b * h in
  ratio <- py_div f cantilever_factor ;;
  E <- div_as kind (ratio ^ 2 * q * L ^ 4) I ;;
  Ok (f_scale E giga).

(** [I_moment = lambda b,h: (b*h**3)/12] *)
Definition I_moment (b h : Q) : result Q := py_div (b * h ^ 3) 12.

(** ** Rounding, sums and means *)

(** [round(x, 2)]: Python rounds halves to the even neighbour. *)
Definition round_half_even (x : Q) : Z :=
  let f := Qfloor x in
  let r := x - inject_Z f in
  if Qltb r (1 # 2) then f
  else if Qltb (1 # 2) r then (f + 1)%Z
  else if Z.even f then f else (f + 1)%Z.

Definition py_round2 (x : Q) : Q := inject_Z (round_half_even (x * 100)) / 100.

(** [round(x, 2)] of a float that may not be finite *)
Definition f_round2 (x : pyfloat) : pyfloat :=
  match x with
  | Finite a => Finite (py_round2 a)
  | Infinite negative => Infinite negative
  | NaN => NaN
  end.

(** [sum(xs)]: starts from 0 and adds from the left. *)
Definition py_sum (xs : list Q) : Q := fold_left Qplus xs 0.

(** [len(xs)] as a number *)
Definition py_len {A : Type} (xs : list A) : Q := inject_Z (Z.of_nat (length xs)).

(** [x + y] on floats: a nan stays, opposite infinities give nan. *)
Definition f_add (x y : pyfloat) : pyfloat :=
  match x, y with
  | NaN, _ | _, NaN => NaN
  | Infinite s, Infinite s' => if Bool.eqb s s' then Infinite s else NaN
  | Infinite s, Finite _ | Finite _, Infinite s => Infinite s
  | Finite a, Finite b => Finite (a + b)
  end.

(** [sum(xs)] on a list of floats *)
Definition f_sum (xs : list pyfloat) : pyfloat := fold_left f_add xs (Finite 0).

(** [sum(xs)/len(xs)]: for an empty list it is [0/0] on Python ints. *)
Definition py_average (xs : list pyfloat) : result pyfloat :=
  match xs with
  | [] => Raise ZeroDivisionError
  | _ :: _ => Ok (f_scale (f_sum xs) (py_len xs))
  end.

(** [qlvl.mean()]; numpy gives [nan] for an empty array and does not raise,
    and the value is then subtracted from no element. *)
Definition np_mean (xs : list Q) : Q := py_sum xs / py_len xs.

(** [range(lo, hi)] *)
Definition py_range (lo hi : Z) : list Z :=
  map (fun k => (lo + Z.of_nat k)%Z) (seq 0 (Z.to_nat (hi - lo))).

(** ** The worksheet *)

Inductive cell : Type :=
| Int (z : Z)
| Num (x : pyfloat)
| Str (s : string).

Definition sheet : Type := list (list cell).

Definition header : list cell :=
  [Str "Length(mm)"; Str "Trial"; Str "Frequency(Hz)"; Str "Young's Modulus(GPa)"].

Definition trial_row (L t : Z) (freq : Q) (Evalue : pyfloat) : list cell :=
  [Int L; Int t; Num (Finite (py_round2 freq)); Num (f_round2 Evalue)].

Definition avg_row (L : Z) (avg_E : pyfloat) : list cell :=
  [Int L; Str "avg"; Str EmptyString; Num (f_round2 avg_E)].

Definition overall_row (overall : pyfloat) : list cell :=
  [Str "overall"; Str EmptyString; Str EmptyString; Num (f_round2 overall)].

(** How [main] holds the frequency of a trial (lines 125-126 with 57-58):
    [crossings[-1]-crossings[0]] is a numpy scalar, taken from the time
    array, and so is the quotient [cycles/t_period]; the [0] that stands
    for fewer than two crossings or a period that is not positive is a
    Python int. *)
Definition frequency_kind (n_cross : Z) (t_period : Q) : operand :=
  if ((1 <? n_cross)%Z && Qltb 0 t_period)%bool then Numpy else Python.

(** ** The aggregation loop of [main]

    The collaborators are parameters: [read_csv L t] is the content of
    [<L>mm_Trial_<t>.csv] as rows (level, time), [None] when the file does
    not exist; [low_pass] is scipy's Butterworth [filtfilt] at the chosen
    cutoff, sampling rate and order.  Prompts, console messages and plots
    do not reach the worksheet or the averages and are left out. *)

Section Main.

Variable read_csv : Z -> Z -> option (list (Q * Q)).
Variable low_pass : list Q -> result (list Q).
Variables (trials : Z) (frac b h rho : Q).

(** Lines 117-127: one trial, from the file's rows to [(freq, Evalue)]. *)
Definition process_trial (rows : list (Q * Q)) (L : Z)
  : result (Q * pyfloat) :=
  let time := map snd rows in
  let qlvl := map fst rows in
  let centered := map (fun x => x - np_mean qlvl) qlvl in
  filt <- low_pass centered ;;
  '(ctime, cdata) <- crop_signal time filt frac ;;
  crossings <- find_crossings ctime cdata ;;
  let n_cross := Z.of_nat (length crossings) in
  let t_period :=
    if (1 <? n_cross)%Z then last crossings 0 - hd 0 crossings else 0 in
  freq <- calc_frequency n_cross t_period ;;
  I <- I_moment b h ;;
  metres <- py_div (inject_Z L) 1000 ;;
  Evalue <- calc_youngs_modulus (frequency_kind n_cross t_period)
              freq b h rho I metres ;;
  Ok (freq, Evalue).

(** Lines 110-153: the trials of one length.  A missing file is skipped;
    an exception of a stage leaves the loop. *)
Fixpoint trial_loop (L : Z) (ts : list Z)
    (ws : sheet) (this_length_E all_E : list pyfloat)
  : result (sheet * list pyfloat * list pyfloat) :=
  match ts with
  | [] => Ok (ws, this_length_E, all_E)
  | t :: rest =>
      match read_csv L t with
      | None => trial_loop L rest ws this_length_E all_E
      | Some rows =>
          '(freq, Evalue) <- process_trial rows L ;;
          trial_loop L rest
            (ws ++ [trial_row L t freq Evalue])
            (this_length_E ++ [Evalue])
            (all_E ++ [Evalue])
      end
  end.

(** Lines 156-158 *)
Definition length_average (L : Z) (ws : sheet) (this_length_E : list pyfloat)
  : result sheet :=
  match this_length_E with
  | [] => Ok ws
  | _ :: _ =>
      avg_E <- py_average this_length_E ;;
      Ok (ws ++ [avg_row L avg_E])
  end.

(** Lines 108-158 *)
Fixpoint length_loop (lengths : list Z) (ws : sheet) (all_E : list pyfloat)
  : result (sheet * list pyfloat) :=
  match lengths with
  | [] => Ok (ws, all_E)
  | L :: rest =>
      '(ws1, this_length_E, all_E1) <-
        trial_loop L (py_range 1 (trials + 1)) ws [] all_E ;;
      ws2 <- length_average L ws1 this_length_E ;;
      length_loop rest ws2 all_E1
  end.

(** Lines 161-163 *)
Definition overall_average (ws : sheet) (all_E : list pyfloat) : result sheet :=
  match all_E with
  | [] => Ok ws
  | _ :: _ =>
      overall <- py_average all_E ;;
      Ok (ws ++ [overall_row overall])
  end.

(** Lines 105-163: the worksheet and the list [all_E] when the loops end. *)
Definition aggregate (lengths : list Z) : result (sheet * list pyfloat) :=
  '(ws, all_E) <- length_loop lengths [header] [] ;;
  ws' <- overall_average ws all_E ;;
  Ok (ws', all_E).

(** *** The aggregation as the specification words it (4.6) *)

(** The trial numbers [1..trials] *)
Definition trial_numbers : list Z := py_range 1 (trials + 1).

(** The trials of length [L] that are not skipped: their file exists. *)
Definition recorded_trials (L : Z) : list Z :=
  filter (fun t => match read_csv L t with Some _ => true | None => false end)
         trial_numbers.

(** Trial number, frequency and modulus of the trials among [ts] that the
    pipeline completes. *)
Definition trial_results (L : Z) (ts : list Z) : list (Z * Q * pyfloat) :=
  flat_map (fun t =>
              match read_csv L t with
              | Some rows =>
                  match process_trial rows L with
                  | Ok (freq, Evalue) => [(t, freq, Evalue)]
                  | Raise _ => []
                  end
              | None => []
              end) ts.

Definition result_row (L : Z) (r : Z * Q * pyfloat) : list cell :=
  let '(t, freq, Evalue) := r in trial_row L t freq Evalue.

(** The modulus values of the recorded trials of length [L] *)
Definition length_moduli (L : Z) : list pyfloat :=
  map snd (trial_results L trial_numbers).

(** The modulus values of the recorded trials of length [L] whose frequency
    is not 0 *)
Definition nonzero_frequency_moduli (L : Z) : list pyfloat :=
  map snd (filter (fun r => negb (Qeq_bool (snd (fst r)) 0))
                  (trial_results L trial_numbers)).

(** The summary row of a list of modulus values: none for an empty list. *)
Definition length_summary (L : Z) (Es : list pyfloat) : sheet :=
  match Es with
  | [] => []
  | _ :: _ => [avg_row L (f_scale (f_sum Es) (py_len Es))]
  end.

Definition overall_summary (Es : list pyfloat) : sheet :=
  match Es with
  | [] => []
  | _ :: _ => [overall_row (f_scale (f_sum Es) (py_len Es))]
  end.

(** The worksheet over the per-length modulus lists [Es]. *)
Definition worksheet (Es : Z -> list pyfloat) (lengths : list Z) : sheet :=
  [header]
  ++ flat_map (fun L => map (result_row L) (trial_results L trial_numbers)
                        ++ length_summary L (Es L)) lengths
  ++ overall_summary (flat_map Es lengths).

(** C2 as the specification states it: a trial of frequency 0 is left out
    of the per-length and of the overall average. *)
Definition excludes_zero_frequency (lengths : list Z) : Prop :=
  forall ws all_E,
    aggregate lengths = Ok (ws, all_E) ->
    all_E = flat_map nonzero_frequency_moduli lengths /\
    ws = worksheet nonzero_frequency_moduli lengths.

End Main.

(** The unweighted arithmetic mean: the sum of the values over their
    number, on floats that may not be finite. *)
Definition mean (xs : list pyfloat) : pyfloat :=
  f_scale (fold_right f_add (Finite 0) xs) (py_len xs).

(** Equality of floats: of the rationals for finite ones, of the signs for
    infinities; here a nan equals a nan. *)
Definition f_eq (x y : pyfloat) : Prop :=
  match x, y with
  | Finite a, Finite b => a == b
  | Infinite s, Infinite s' => s = s'
  | NaN, NaN => True
  | _, _ => False
  end.

(** ** The specification's wording, for comparison with the code *)

(** Specification 4.5: the closed-form cantilever relation, in GPa. *)
Definition youngs_modulus_formula (f b h rho I L : Q) : Q :=
  ((f / (56 # 100)) ^ 2 * rho * b * h * L ^ 4) / I / 1000000000.

(** Sample [i] of [data] is above [thresh] in absolute value. *)
Definition exceeds (data : list Q) (thresh : Q) (i : nat) : Prop :=
  exists x, nth_error data i = Some x /\ thresh < Qabs x.

Definition first_exceeding (data : list Q) (thresh : Q) (i : nat) : Prop :=
  exceeds data thresh i /\ forall k, exceeds data thresh k -> (i <= k)%nat.

Definition last_exceeding (data : list Q) (thresh : Q) (j : nat) : Prop :=
  exceeds data thresh j /\ forall k, exceeds data thresh k -> (k <= j)%nat.

(** The elements of [xs] at the indices [i], [i+1], ..., [j], both ends
    included. *)
Definition sub_range {A : Type} (xs : list A) (i j : nat) : list A :=
  flat_map (fun k => match nth_error xs k with Some x => [x] | None => [] end)
           (seq i (j + 1 - i)).

(** A time axis that grows strictly. *)
Definition increasing (ts : list Q) : Prop :=
  forall p q x y, (p < q)%nat ->
    nth_error ts p = Some x -> nth_error ts q = Some y -> x < y.

(** Specification 4.3: the adjacent pairs whose product is negative, by the
    index of the later sample, and the grid times of those samples. *)
Definition crossing_indices (data : list Q) : list nat :=
  filter (fun i => Qltb (nth (i - 1) data 0 * nth i data 0) 0)
         (seq 1 (length data - 1)).

Definition crossing_times (time data : list Q) : list Q :=
  map (fun i => nth i time 0) (crossing_indices data).

(** [m] is the peak amplitude [max(|data|)]. *)
Definition is_peak (data : list Q) (m : Q) : Prop :=
  In m (map Qabs data) /\ forall x, In x data -> Qabs x <= m.

(** ** Sample inputs *)

(** A filter that lets every sample through. *)
Definition id_filter (xs : list Q) : result (list Q) := Ok xs.

Definition demo_time : list Q := [0; 1 # 100; 2 # 100; 3 # 100; 4 # 100].
Definition demo_signal : list Q := [0; 5; -1; 3; 0].

(** Rows (level, time) of three recordings: an alternating signal, a signal
    that changes sign once, and a constant one. *)
Definition alternating_rows : list (Q * Q) :=
  [(1, 0); (-1, 1 # 100); (1, 2 # 100); (-1, 3 # 100)].
Definition one_crossing_rows : list (Q * Q) :=
  [(-1, 0); (-1, 1 # 100); (2, 2 # 100)].
Definition constant_rows : list (Q * Q) :=
  [(1, 0); (1, 1 # 100); (1, 2 # 100)].

(** A folder with trials 1 and 3 of the 120 mm beam; trial 2 is missing. *)
Definition demo_csv (L t : Z) : option (list (Q * Q)) :=
  if (L =? 120)%Z then
    if (t =? 1)%Z then Some one_crossing_rows
    else if (t =? 3)%Z then Some alternating_rows
    else None
  else None.

(** A folder whose second 120 mm recording is constant. *)
Definition flat_csv (L t : Z) : option (list (Q * Q)) :=
  if (L =? 120)%Z then
    if (t =? 1)%Z then Some alternating_rows
    else if (t =? 2)%Z then Some constant_rows
    else None
  else None.

(** The default beam of the prompts: width, thickness, density. *)
Definition demo_b : Q := 255 # 10000.
Definition demo_h : Q := 8 # 10000.
Definition demo_rho : Q := 7700.

(** What is left of [demo_time] and [demo_signal] above a tenth of the peak. *)
Definition cropped_time : list Q := [1 # 100; 2 # 100; 3 # 100].
Definition cropped_signal : list Q := [5; -1; 3].

(** ** The filter stage (lines 38-41)

    scipy's [butter] designs the filter from the order and the critical
    frequency [Wn], and [filtfilt] runs it forwards and backwards; both are
    parameters.  The script's own part is the normalisation by the Nyquist
    rate. *)

Section LowPass.

Variable butter : Z -> Q -> result (list Q * list Q).
Variable filtfilt : list Q -> list Q -> list Q -> result (list Q).

Definition low_pass (data : list Q) (cutoff fs : Q) (order : Z)
  : result (list Q) :=
  let nyq := (5 # 10) * fs in
  Wn <- py_div cutoff nyq ;;
  '(b, a) <- butter order Wn ;;
  filtfilt b a data.

End LowPass.

(** ** Prompts (lines 65-74)

    [input()] reads the next of the lines typed at the console and raises
    [EOFError] when there is none; [strip] is [str.strip] and [cast] the
    conversion asked for, [None] when it raises.  The outcome records the
    number of "invalid input" messages printed and the lines not yet read;
    the prompt text itself is left out. *)

Inductive prompt_outcome (A : Type) : Type :=
| Answer (a : A) (invalid : nat) (rest : list string)
| EndOfInput (invalid : nat).
Arguments Answer {A} a invalid rest.
Arguments EndOfInput {A} invalid.

Section Prompt.

Variable A : Type.
Variable strip : string -> string.
Variable cast : string -> option A.
Variable default : option A.

Fixpoint prompt (lines : list string) (invalid : nat) : prompt_outcome A :=
  match lines with
  | [] => EndOfInput invalid
  | line :: rest =>
      let val := strip line in
      match val, default with
      | EmptyString, Some d => Answer d invalid rest
      | _, _ =>
          match cast val with
          | Some a => Answer a invalid rest
          | None => prompt rest (S invalid)
          end
      end
  end.

(** What one line answers, if it is accepted. *)
Definition answer_of (line : string) : option A :=
  match strip line, default with
  | EmptyString, Some d => Some d
  | val, _ => cast val
  end.

End Prompt.

(** ** Graph output mode (lines 91-94 and 143-148) *)

(** [graph_mode in options] *)
Definition mode_in (graph_mode : string) (options : list string) : bool :=
  existsb (String.eqb graph_mode) options.

(** Lines 93-94, on the lower-cased answer. *)
Definition normalise_graph_mode (graph_mode : string) : string :=
  if mode_in graph_mode ["save"; "display"; "both"]%string
  then graph_mode else "both"%string.

(** Lines 143 and 147: whether a figure is written to a file, shown. *)
Definition saves_figure (graph_mode : string) : bool :=
  mode_in graph_mode ["save"; "both"]%string.
Definition shows_figure (graph_mode : string) : bool :=
  mode_in graph_mode ["display"; "both"]%string.

(** ** More sample inputs *)

(** A conversion that accepts only the numeral 3, and a [strip] for lines
    that carry no blanks. *)
Definition demo_cast (s : string) : option Z :=
  if String.eqb s "3" then Some 3%Z else None.
Definition no_strip (s : string) : string := s.

(** A filter design that always succeeds, and a filter that passes the data. *)
Definition demo_butter (order : Z) (Wn : Q) : result (list Q * list Q) :=
  Ok ([Wn], [1]).
Definition demo_filtfilt (b a data : list Q) : result (list Q) := Ok data.

(** A signal that changes sign twice, a time axis for it, one cut short,
    and the crossing times. *)
Definition zigzag_signal : list Q := [1; -1; 1].
Definition zigzag_time : list Q := [0; 1 # 100; 2 # 100; 3 # 100].
Definition short_time : list Q := [0; 1 # 100].
Definition zigzag_crossings : list Q := [1 # 100; 2 # 100].

(** [increasing], decided on a concrete list. *)
Fixpoint increasingb (ts : list Q) : bool :=
  match ts with
  | x :: (y :: _) as rest => Qltb x y && increasingb rest
  | _ => true
  end.

(** Lines 117-126 alone: one trial up to its frequency, with the crossing
    times it was computed from. *)
Definition trial_crossings (low_pass : list Q -> result (list Q)) (frac : Q)
    (rows : list (Q * Q)) : result (list Q) :=
  let time := map snd rows in
  let qlvl := map fst rows in
  let centered := map (fun x => x - np_mean qlvl) qlvl in
  filt <- low_pass centered ;;
  '(ctime, cdata) <- crop_signal time filt frac ;;
  find_crossings ctime cdata.

Definition crossings_frequency (crossings : list Q) : result Q :=
  let n_cross := Z.of_nat (length crossings) in
  let t_period :=
    if (1 <? n_cross)%Z then last crossings 0 - hd 0 crossings else 0 in
  calc_frequency n_cross t_period.

Definition trial_frequency (low_pass : list Q -> result (list Q)) (frac : Q)
    (rows : list (Q * Q)) : result Q :=
  crossings <- trial_crossings low_pass frac rows ;;
  crossings_frequency crossings.

(** The kind of a frequency by its value: [main] holds a positive
    frequency as a numpy scalar and the frequency 0 as a Python int. *)
Definition kind_of_frequency (freq : Q) : operand :=
  if Qltb 0 freq then Numpy else Python.

(** The modulus of the pipeline in closed form: the width cancels between
    the mass per length [rho*b*h] and the moment of inertia [b*h^3/12]. *)
Definition pipeline_modulus (f h rho L : Q) : Q :=
  12 * (f / (56 # 100)) ^ 2 * rho * L ^ 4 / h ^ 2 / 1000000000.

(** Line 118: [centered = qlvl - qlvl.mean()] *)
Definition centered_levels (qlvl : list Q) : list Q :=
  map (fun x => x - np_mean qlvl) qlvl.

(** * Properties *)

(** ** Numbers *)

Lemma Qltb_lt (x y : Q) : Qltb x y = true <-> x < y.
Proof.
  unfold Qltb. rewrite negb_true_iff, <- not_true_iff_false, Qle_bool_iff.
  split; [apply Qnot_le_lt | apply Qlt_not_le].
Qed.

Lemma Qltb_ge (x y : Q) : Qltb x y = false <-> y <= x.
Proof.
  unfold Qltb. rewrite negb_false_iff. apply Qle_bool_iff.
Qed.

#[local] Instance Qltb_proper : Proper (Qeq ==> Qeq ==> eq) Qltb.
Proof.
  intros x x' Hx y y' Hy. unfold Qltb. now rewrite Hx, Hy.
Qed.

Lemma py_div_ok (x y : Q) : ~ y == 0 -> py_div x y = Ok (x / y).
Proof.
  intros Hy. unfold py_div.
  destruct (Qeq_bool y 0) eqn:E; [|reflexivity].
  apply Qeq_bool_eq in E. contradiction.
Qed.

Lemma py_div_zero (x y : Q) : y == 0 -> py_div x y = Raise ZeroDivisionError.
Proof.
  intros Hy. unfold py_div. now rewrite (Qeq_eq_bool _ _ Hy).
Qed.

Lemma Qdiv_nonneg (x y : Q) : 0 <= x -> 0 < y -> 0 <= x / y.
Proof.
  intros Hx Hy. apply Qle_shift_div_l; [assumption | lra].
Qed.

(** ** Frequency *)

(** C3.  [calc_frequency] never raises, its result is never negative, and it
    is [((n_cross - 1) / 2) / t_period] when [n_cross > 1] and
    [t_period > 0], and 0 in every other case. *)
Theorem calc_frequency_spec (n_cross : Z) (t_period : Q) :
  exists f : Q,
    calc_frequency n_cross t_period = Ok f /\
    0 <= f /\
    f == (if ((1 <? n_cross)%Z && Qltb 0 t_period)%bool
          then (inject_Z (n_cross - 1) / 2) / t_period
          else 0).
Proof.
  unfold calc_frequency.
  destruct (1 <? n_cross)%Z eqn:Hn; cbn [bind andb].
  - rewrite py_div_ok by (intros H; discriminate H). cbn [bind].
    apply Z.ltb_lt in Hn.
    destruct (Qltb 0 t_period) eqn:Hp.
    + apply Qltb_lt in Hp.
      rewrite py_div_ok by lra.
      eexists; split; [reflexivity|]. split; [|reflexivity].
      apply Qdiv_nonneg; [|assumption].
      apply Qdiv_nonneg; [|reflexivity].
      change 0 with (inject_Z 0). rewrite <- Zle_Qle. lia.
    + exists 0. split; [reflexivity | split; [apply Qle_refl | reflexivity]].
  - destruct (Qltb 0 t_period) eqn:Hp.
    + apply Qltb_lt in Hp.
      rewrite py_div_ok by lra.
      eexists; split; [reflexivity|].
      split; [apply Qdiv_nonneg; [apply Qle_refl | assumption]|].
      field. lra.
    + exists 0. split; [reflexivity | split; [apply Qle_refl | reflexivity]].
Qed.

(** The value [calc_frequency] returns. *)
Lemma calc_frequency_ok (n_cross : Z) (t_period : Q) :
  calc_frequency n_cross t_period =
  Ok (if Qltb 0 t_period
      then (if (1 <? n_cross)%Z then inject_Z (n_cross - 1) / 2 else 0) / t_period
      else 0).
Proof.
  unfold calc_frequency.
  assert (Hc : (if (1 <? n_cross)%Z then py_div (inject_Z (n_cross - 1)) 2 else Ok 0)
               = Ok (if (1 <? n_cross)%Z then inject_Z (n_cross - 1) / 2 else 0)).
  { destruct (1 <? n_cross)%Z; [|reflexivity].
    apply py_div_ok. intros H; discriminate H. }
  rewrite Hc. cbn [bind].
  destruct (Qltb 0 t_period) eqn:Hp; [|reflexivity].
  apply Qltb_lt in Hp. apply py_div_ok. lra.
Qed.

(** The two cases of the frequency as the specification words them. *)
Lemma calc_frequency_cases (n_cross : Z) (t_period f : Q) :
  calc_frequency n_cross t_period = Ok f ->
  ((1 < n_cross)%Z -> 0 < t_period ->
     f == (inject_Z (n_cross - 1) / 2) / t_period) /\
  ((n_cross <= 1)%Z \/ t_period <= 0 -> f == 0).
Proof.
  rewrite calc_frequency_ok. intros [= <-]. split.
  - intros Hn Hp. apply Z.ltb_lt in Hn. apply Qltb_lt in Hp.
    rewrite Hn, Hp. reflexivity.
  - intros [Hn | Hp].
    + apply Z.ltb_ge in Hn. rewrite Hn.
      destruct (Qltb 0 t_period) eqn:Hp; [|reflexivity].
      apply Qltb_lt in Hp. field. lra.
    + apply Qltb_ge in Hp. now rewrite Hp.
Qed.

(** ** Young's modulus *)

Lemma cantilever_factor_nonzero : ~ cantilever_factor == 0.
Proof. intros H; discriminate H. Qed.

Lemma giga_nonzero : ~ giga == 0.
Proof. intros H; discriminate H. Qed.

Lemma div_as_ok (kind : operand) (x y : Q) :
  ~ y == 0 -> div_as kind x y = Ok (Finite (x / y)).
Proof.
  intros Hy. unfold div_as.
  destruct (Qeq_bool y 0) eqn:E; [|reflexivity].
  apply Qeq_bool_eq in E. contradiction.
Qed.

Lemma div_as_python_zero (x y : Q) :
  y == 0 -> div_as Python x y = Raise ZeroDivisionError.
Proof.
  intros Hy. unfold div_as. now rewrite (Qeq_eq_bool _ _ Hy).
Qed.

Lemma div_as_numpy_zero (x y : Q) :
  y == 0 ->
  div_as Numpy x y = Ok (if Qeq_bool x 0 then NaN else Infinite (Qltb x 0)).
Proof.
  intros Hy. unfold div_as. now rewrite (Qeq_eq_bool _ _ Hy).
Qed.

Lemma calc_youngs_modulus_ok (kind : operand) (f b h rho I L : Q) :
  ~ I == 0 ->
  calc_youngs_modulus kind f b h rho I L =
  Ok (Finite ((f / cantilever_factor) ^ 2 * (rho * b * h) * L ^ 4 / I / giga)).
Proof.
  intros HI. unfold calc_youngs_modulus.
  rewrite (py_div_ok f) by apply cantilever_factor_nonzero. cbn [bind].
  now rewrite div_as_ok by assumption.
Qed.

Lemma calc_youngs_modulus_raises (f b h rho I L : Q) :
  I == 0 -> calc_youngs_modulus Python f b h rho I L = Raise ZeroDivisionError.
Proof.
  intros HI. unfold calc_youngs_modulus.
  rewrite (py_div_ok f) by apply cantilever_factor_nonzero. cbn [bind].
  now rewrite div_as_python_zero by assumption.
Qed.

Lemma calc_youngs_modulus_not_finite (f b h rho I L : Q) :
  I == 0 ->
  calc_youngs_modulus Numpy f b h rho I L =
  Ok (if Qeq_bool ((f / cantilever_factor) ^ 2 * (rho * b * h) * L ^ 4) 0
      then NaN
      else Infinite (Qltb ((f / cantilever_factor) ^ 2 * (rho * b * h) * L ^ 4) 0)).
Proof.
  intros HI. unfold calc_youngs_modulus.
  rewrite (py_div_ok f) by apply cantilever_factor_nonzero. cbn [bind].
  rewrite div_as_numpy_zero by assumption. cbn [bind].
  now destruct (Qeq_bool _ 0).
Qed.

Lemma I_moment_ok (b h : Q) : I_moment b h = Ok (b * h ^ 3 / 12).
Proof. unfold I_moment. apply py_div_ok. intros H; discriminate H. Qed.

(** ** The error monad *)

Lemma bind_ok {A B : Type} (m : result A) (k : A -> result B) (b : B) :
  bind m k = Ok b -> exists a, m = Ok a /\ k a = Ok b.
Proof.
  destruct m as [a|e]; cbn; [|discriminate].
  intros H. now exists a.
Qed.

Ltac bind_inv H :=
  let a := fresh "a" in
  let Ha := fresh "Ha" in
  apply bind_ok in H; destruct H as (a & Ha & H).

(** ** Indices of a mask *)

Lemma In_where_from (mask : list bool) (s k : nat) :
  In k (where_from s mask) <->
  (s <= k)%nat /\ nth_error mask (k - s) = Some true.
Proof.
  revert s. induction mask as [|b m IH]; intros s; cbn [where_from].
  - split; [intros []|]. intros [_ H]. destruct (k - s)%nat; discriminate H.
  - assert (Hstep : (S s <= k)%nat -> (k - s = S (k - S s))%nat) by lia.
    destruct b; cbn [In]; rewrite IH.
    + split.
      * intros [<- | [H1 H2]].
        -- split; [lia|]. now rewrite Nat.sub_diag.
        -- split; [lia|]. now rewrite Hstep.
      * intros [H1 H2]. destruct (Nat.eq_dec s k) as [->|Hne]; [now left|].
        right. split; [lia|]. rewrite Hstep in H2 by lia. exact H2.
    + split.
      * intros [H1 H2]. split; [lia|]. now rewrite Hstep.
      * intros [H1 H2]. destruct (Nat.eq_dec s k) as [->|Hne].
        -- rewrite Nat.sub_diag in H2. discriminate H2.
        -- split; [lia|]. rewrite Hstep in H2 by lia. exact H2.
Qed.

Lemma where_from_sorted (mask : list bool) (s : nat) :
  StronglySorted lt (where_from s mask).
Proof.
  revert s. induction mask as [|b m IH]; intros s; cbn [where_from].
  - constructor.
  - destruct b; [|apply IH].
    constructor; [apply IH|].
    apply Forall_forall. intros k Hk. apply In_where_from in Hk. lia.
Qed.

Lemma first_index_min (l : list nat) (k : nat) :
  StronglySorted lt l -> first_index l = Ok k ->
  In k l /\ forall x, In x l -> (k <= x)%nat.
Proof.
  destruct l as [|a r]; cbn; [discriminate|].
  intros Hs [= <-]. split; [now left|].
  intros x [<- | Hx]; [lia|].
  apply StronglySorted_inv in Hs. destruct Hs as [_ Hall].
  rewrite Forall_forall in Hall. specialize (Hall x Hx). lia.
Qed.

Lemma last_shift {A : Type} (c : A) (r : list A) (a : A) :
  last (c :: r) a = last r c.
Proof.
  revert c a. induction r as [|d r IH]; intros c a; [reflexivity|].
  change (last (c :: d :: r) a) with (last (d :: r) a).
  now rewrite !IH.
Qed.

Lemma last_sorted_max (r : list nat) (a : nat) :
  StronglySorted lt (a :: r) ->
  In (last r a) (a :: r) /\ forall x, In x (a :: r) -> (x <= last r a)%nat.
Proof.
  revert a. induction r as [|c r IH]; intros a Hs.
  - cbn. split; [now left|]. intros x [<- | []]. lia.
  - apply StronglySorted_inv in Hs. destruct Hs as [Hs Hall].
    rewrite last_shift. destruct (IH c Hs) as [Hin Hmax]. split.
    + now right.
    + intros x [<- | Hx]; [|now apply Hmax].
      apply Forall_inv in Hall. specialize (Hmax c (or_introl eq_refl)). lia.
Qed.

Lemma last_index_max (l : list nat) (k : nat) :
  StronglySorted lt l -> last_index l = Ok k ->
  In k l /\ forall x, In x l -> (x <= k)%nat.
Proof.
  destruct l as [|a r]; cbn [last_index]; [discriminate|].
  intros Hs [= <-]. now apply last_sorted_max.
Qed.

Lemma index_of_nonempty (l : list nat) (k : nat) :
  In k l -> exists i j, first_index l = Ok i /\ last_index l = Ok j.
Proof.
  destruct l as [|a r]; [intros []|]. intros _. now eexists _, _.
Qed.

(** ** The mask [amp > thresh] *)

Lemma mask_exceeds (data : list Q) (thresh : Q) (k : nat) :
  nth_error (np_gt (np_abs data) thresh) k = Some true <->
  exceeds data thresh k.
Proof.
  unfold np_gt, np_abs, exceeds. rewrite !nth_error_map.
  destruct (nth_error data k) as [x|]; cbn.
  - split.
    + intros [= H]. exists x. split; [reflexivity|]. now apply Qltb_lt.
    + intros (y & [= <-] & H). f_equal. now apply Qltb_lt.
  - split; [discriminate|]. intros (y & H & _). discriminate H.
Qed.

Lemma In_np_where (data : list Q) (thresh : Q) (k : nat) :
  In k (np_where (np_gt (np_abs data) thresh)) <-> exceeds data thresh k.
Proof.
  unfold np_where. rewrite In_where_from, Nat.sub_0_r, mask_exceeds.
  split; [tauto|]. intros H; split; [lia|exact H].
Qed.

(** ** Crop *)

Lemma crop_signal_inv (time data : list Q) (frac : Q) (t' d' : list Q) :
  crop_signal time data frac = Ok (t', d') ->
  exists m i j,
    np_max (np_abs data) = Ok m /\
    first_exceeding data (frac * m) i /\
    last_exceeding data (frac * m) j /\
    t' = py_slice time i (j + 1) /\
    d' = py_slice data i (j + 1).
Proof.
  unfold crop_signal. intros H.
  bind_inv H. rename a into m. bind_inv H. rename a into i.
  bind_inv H. rename a into j. injection H as <- <-.
  exists m, i, j. split; [assumption|].
  pose proof (where_from_sorted (np_gt (np_abs data) (frac * m)) 0) as Hs.
  destruct (first_index_min _ _ Hs Ha0) as [Hi Hmin].
  destruct (last_index_max _ _ Hs Ha1) as [Hj Hmax].
  repeat split.
  - now apply In_np_where.
  - intros k Hk. now apply Hmin, In_np_where.
  - now apply In_np_where.
  - intros k Hk. now apply Hmax, In_np_where.
Qed.

Lemma crop_signal_ok (time data : list Q) (frac m : Q) (k : nat) :
  np_max (np_abs data) = Ok m ->
  exceeds data (frac * m) k ->
  exists i j,
    crop_signal time data frac =
    Ok (py_slice time i (j + 1), py_slice data i (j + 1)).
Proof.
  intros Hm Hk. apply In_np_where in Hk.
  destruct (index_of_nonempty _ _ Hk) as (i & j & Hi & Hj).
  exists i, j. unfold crop_signal. rewrite Hm. cbn [bind].
  rewrite Hi. cbn [bind]. now rewrite Hj.
Qed.

Lemma crop_signal_raises (time data : list Q) (frac m : Q) :
  np_max (np_abs data) = Ok m ->
  (forall k, ~ exceeds data (frac * m) k) ->
  crop_signal time data frac = Raise IndexError.
Proof.
  intros Hm Hnone. unfold crop_signal. rewrite Hm. cbn [bind].
  destruct (np_where (np_gt (np_abs data) (frac * m))) as [|i r] eqn:E;
    [reflexivity|].
  exfalso. apply (Hnone i). apply In_np_where. rewrite E. now left.
Qed.

Lemma skipn_nth_error {A : Type} (xs : list A) (i : nat) (x : A) :
  nth_error xs i = Some x -> skipn i xs = x :: skipn (S i) xs.
Proof.
  revert i. induction xs as [|y xs IH]; intros i H.
  - destruct i; discriminate H.
  - destruct i as [|i]; cbn in H.
    + now injection H as ->.
    + cbn [skipn]. now apply IH.
Qed.

(** A slice is the run of elements between its bounds. *)
Lemma py_slice_sub_range {A : Type} (xs : list A) (i j : nat) :
  py_slice xs i (j + 1) = sub_range xs i j.
Proof.
  unfold py_slice, sub_range.
  generalize (j + 1 - i)%nat as n. intros n. clear j.
  revert i. induction n as [|n IH]; intros i; [reflexivity|].
  cbn [seq flat_map].
  destruct (nth_error xs i) as [x|] eqn:Hx.
  - rewrite (skipn_nth_error _ _ _ Hx). cbn [firstn app]. f_equal. apply IH.
  - rewrite <- IH. apply nth_error_None in Hx.
    rewrite !skipn_all2 by lia. now rewrite !firstn_nil.
Qed.

Lemma nth_error_py_slice {A : Type} (xs : list A) (lo hi k : nat) :
  nth_error (py_slice xs lo hi) k =
  if (k <? hi - lo)%nat then nth_error xs (lo + k) else None.
Proof.
  unfold py_slice. now rewrite nth_error_firstn, nth_error_skipn.
Qed.

Lemma length_py_slice {A : Type} (xs : list A) (lo hi : nat) :
  (hi <= length xs)%nat -> length (py_slice xs lo hi) = (hi - lo)%nat.
Proof.
  intros H. unfold py_slice. rewrite length_firstn, length_skipn. lia.
Qed.

Lemma length_py_slice_le {A : Type} (xs : list A) (lo hi : nat) :
  (length (py_slice xs lo hi) <= hi - lo)%nat.
Proof. apply firstn_le_length. Qed.

Lemma exceeds_lt_length (data : list Q) (thresh : Q) (k : nat) :
  exceeds data thresh k -> (k < length data)%nat.
Proof.
  intros (x & Hx & _). apply nth_error_Some. now rewrite Hx.
Qed.

Lemma exceeds_proper (data : list Q) (t t' : Q) (k : nat) :
  t == t' -> exceeds data t k -> exceeds data t' k.
Proof.
  intros Ht (x & Hx & Hlt). exists x. split; [assumption|]. now rewrite <- Ht.
Qed.

(** Inside the cropped range, the samples above the threshold are those of
    the input. *)
Lemma exceeds_py_slice (data : list Q) (thresh : Q) (i j k : nat) :
  exceeds (py_slice data i (j + 1)) thresh k <->
  (k < j + 1 - i)%nat /\ exceeds data thresh (i + k).
Proof.
  unfold exceeds. rewrite nth_error_py_slice.
  destruct (k <? j + 1 - i)%nat eqn:E.
  - apply Nat.ltb_lt in E. tauto.
  - apply Nat.ltb_ge in E. split.
    + intros (x & H & _). discriminate H.
    + intros [H _]. lia.
Qed.

(** ** The maximum *)

Lemma fold_max_spec (rest : list Q) (a : Q) :
  let m := fold_left (fun m x => if Qltb m x then x else m) rest a in
  In m (a :: rest) /\ forall x, In x (a :: rest) -> x <= m.
Proof.
  revert a. induction rest as [|y rest IH]; intros a; cbn zeta.
  - cbn. split; [now left|]. intros x [<- | []]. apply Qle_refl.
  - cbn [fold_left].
    destruct (Qltb a y) eqn:E.
    + apply Qltb_lt in E. destruct (IH y) as [Hin Hmax]. split.
      * now right.
      * intros x [<- | Hx]; [|now apply Hmax].
        apply Qle_trans with y; [lra|]. apply Hmax. now left.
    + apply Qltb_ge in E. destruct (IH a) as [Hin Hmax]. split.
      * destruct Hin as [<- | Hin]; [now left | right; now right].
      * intros x [<- | [<- | Hx]].
        -- apply Hmax. now left.
        -- apply Qle_trans with a; [assumption|]. apply Hmax. now left.
        -- apply Hmax. now right.
Qed.

Lemma np_max_spec (amp : list Q) (m : Q) :
  np_max amp = Ok m -> In m amp /\ forall x, In x amp -> x <= m.
Proof.
  destruct amp as [|a rest]; cbn [np_max]; [discriminate|].
  intros [= <-]. apply fold_max_spec.
Qed.

Lemma np_max_ok (amp : list Q) :
  amp <> [] -> exists m, np_max amp = Ok m.
Proof.
  destruct amp as [|a rest]; [congruence|]. intros _. now eexists.
Qed.

(** The peak of a cropped signal is the peak of the input. *)
Lemma np_max_cropped (data : list Q) (frac m : Q) (i j : nat) :
  np_max (np_abs data) = Ok m ->
  first_exceeding data (frac * m) i ->
  last_exceeding data (frac * m) j ->
  exists m', np_max (np_abs (py_slice data i (j + 1))) = Ok m' /\ m' == m.
Proof.
  intros Hm [Hi Hfirst] [Hj Hlast].
  assert (Hij : (i <= j)%nat) by now apply Hfirst.
  pose proof (exceeds_lt_length _ _ _ Hj) as Hjlen.
  destruct (np_max_spec _ _ Hm) as [Hin Hmax].
  destruct (np_max_ok (np_abs (py_slice data i (j + 1)))) as [m' Hm'].
  { intros E. apply (f_equal (@length Q)) in E. revert E.
    unfold np_abs. rewrite length_map, length_py_slice by lia. cbn. lia. }
  exists m'. split; [assumption|].
  destruct (np_max_spec _ _ Hm') as [Hin' Hmax'].
  apply Qle_antisym.
  - apply Hmax. unfold np_abs in *. apply in_map_iff in Hin'.
    destruct Hin' as (x & <- & Hx). apply in_map.
    apply In_nth_error in Hx. destruct Hx as [k Hk].
    rewrite nth_error_py_slice in Hk.
    destruct (k <? j + 1 - i)%nat; [|discriminate].
    eapply nth_error_In; eassumption.
  - unfold np_abs in Hin. apply in_map_iff in Hin.
    destruct Hin as (x & Ex & Hx).
    apply In_nth_error in Hx. destruct Hx as [p Hp].
    assert (Hpx : exceeds data (frac * m) p).
    { exists x. split; [assumption|]. destruct Hi as (xi & Hxi & Hlt).
      rewrite Ex. apply Qlt_le_trans with (Qabs xi); [assumption|].
      apply Hmax. unfold np_abs. apply in_map. eapply nth_error_In; eassumption. }
    pose proof (Hfirst p Hpx). pose proof (Hlast p Hpx).
    rewrite <- Ex. apply Hmax'. unfold np_abs. apply in_map.
    apply nth_error_In with (p - i)%nat. rewrite nth_error_py_slice.
    replace (i + (p - i))%nat with p by lia.
    destruct (p - i <? j + 1 - i)%nat eqn:E; [assumption|].
    apply Nat.ltb_ge in E. lia.
Qed.

(** C8.  Cropping is idempotent: when [crop_signal] returns [(t', d')],
    cropping [(t', d')] again with the same [frac] returns [(t', d')]. *)
Theorem crop_signal_idempotent (time data : list Q) (frac : Q) (t' d' : list Q) :
  crop_signal time data frac = Ok (t', d') ->
  crop_signal t' d' frac = Ok (t', d').
Proof.
  intros H.
  destruct (crop_signal_inv _ _ _ _ _ H) as (m & i & j & Hm & Hi & Hj & -> & ->).
  destruct (np_max_cropped _ _ _ _ _ Hm Hi Hj) as (m' & Hm' & Heq).
  assert (Hij : (i <= j)%nat) by (destruct Hi as [_ Hf]; apply Hf, Hj).
  pose proof (exceeds_lt_length _ _ _ (proj1 Hj)) as Hjlen.
  assert (Ht : frac * m == frac * m') by now rewrite Heq.
  set (d' := py_slice data i (j + 1)) in *.
  set (t' := py_slice time i (j + 1)) in *.
  assert (Hlen : length d' = (j + 1 - i)%nat) by (apply length_py_slice; lia).
  assert (H0 : exceeds d' (frac * m') 0).
  { apply exceeds_py_slice. split; [lia|]. rewrite Nat.add_0_r.
    apply exceeds_proper with (frac * m); [assumption | apply Hi]. }
  assert (Hend : exceeds d' (frac * m') (j - i)).
  { apply exceeds_py_slice. split; [lia|].
    replace (i + (j - i))%nat with j by lia.
    apply exceeds_proper with (frac * m); [assumption | apply Hj]. }
  destruct (crop_signal_ok t' d' frac m' 0 Hm' H0) as (i' & j' & Hc).
  rewrite Hc. destruct (crop_signal_inv _ _ _ _ _ Hc)
    as (m'' & i'' & j'' & Hm'' & Hi'' & Hj'' & Et & Ed).
  rewrite Hm' in Hm''. injection Hm'' as <-.
  assert (i'' = 0)%nat by (destruct Hi'' as [_ Hf]; specialize (Hf _ H0); lia).
  assert (j'' = j - i)%nat.
  { destruct Hj'' as [Hx Hl]. specialize (Hl _ Hend).
    apply exceeds_lt_length in Hx. lia. }
  subst i'' j''. rewrite Et, Ed. unfold py_slice at 1 2.
  cbn [skipn].
  pose proof (length_py_slice_le time i (j + 1)) as Htlen. fold t' in Htlen.
  rewrite !firstn_all2 by lia. reflexivity.
Qed.

(** ** Crossings *)

Lemma py_get_ok {A : Type} (xs : list A) (i : nat) (d : A) :
  (i < length xs)%nat -> py_get xs i = Ok (nth i xs d).
Proof.
  intros H. unfold py_get. now rewrite (nth_error_nth' xs d H).
Qed.

Lemma crossing_step_ok (time data xs : list Q) (i : nat) :
  (i < length data)%nat -> (i < length time)%nat ->
  crossing_step time data xs i =
  Ok (if Qltb (nth (i - 1) data 0 * nth i data 0) 0
      then xs ++ [nth i time 0] else xs).
Proof.
  intros Hd Ht. unfold crossing_step.
  rewrite (py_get_ok data (i - 1) 0) by lia. cbn [bind].
  rewrite (py_get_ok data i 0) by lia. cbn [bind].
  destruct (Qltb _ 0); [|reflexivity].
  now rewrite (py_get_ok time i 0) by lia.
Qed.

Lemma crossing_loop_ok (time data : list Q) (ixs : list nat) (xs : list Q) :
  Forall (fun i => (i < length data)%nat /\ (i < length time)%nat) ixs ->
  crossing_loop time data ixs xs =
  Ok (xs ++ map (fun i => nth i time 0)
              (filter (fun i => Qltb (nth (i - 1) data 0 * nth i data 0) 0) ixs)).
Proof.
  intros Hall. revert xs.
  induction Hall as [|i ixs [Hd Ht] _ IH]; intros xs; cbn [crossing_loop].
  - cbn. now rewrite app_nil_r.
  - rewrite crossing_step_ok by assumption. cbn [bind filter].
    rewrite IH. destruct (Qltb _ 0); [|reflexivity].
    cbn [map]. now rewrite <- app_assoc.
Qed.

Lemma seq_sorted (a n : nat) : StronglySorted lt (seq a n).
Proof.
  revert a. induction n as [|n IH]; intros a; cbn [seq]; constructor.
  - apply IH.
  - apply Forall_forall. intros x Hx. apply in_seq in Hx. lia.
Qed.

Lemma filter_sorted (p : nat -> bool) (l : list nat) :
  StronglySorted lt l -> StronglySorted lt (filter p l).
Proof.
  induction 1 as [|a l Hs IH Hall]; cbn [filter]; [constructor|].
  destruct (p a); [|assumption].
  constructor; [assumption|].
  rewrite Forall_forall in *. intros x Hx. apply filter_In in Hx.
  now apply Hall.
Qed.

Lemma In_crossing_indices (data : list Q) (i : nat) :
  In i (crossing_indices data) <->
  (1 <= i < length data)%nat /\ nth (i - 1) data 0 * nth i data 0 < 0.
Proof.
  unfold crossing_indices. rewrite filter_In, in_seq, Qltb_lt.
  intuition lia.
Qed.

(** C5.  On a time axis as long as the signal, [find_crossings] returns the
    grid times [time[i]], in ascending index order, of exactly the indices
    [i] with [data[i-1] * data[i] < 0]; neither sample of such a pair is
    zero; and a signal of fewer than two samples has no crossing. *)
Theorem find_crossings_spec (time data : list Q) :
  length time = length data ->
  find_crossings time data = Ok (crossing_times time data) /\
  (forall i, In i (crossing_indices data) <->
     (1 <= i < length data)%nat /\ nth (i - 1) data 0 * nth i data 0 < 0) /\
  StronglySorted lt (crossing_indices data) /\
  (forall i, In i (crossing_indices data) ->
     ~ nth (i - 1) data 0 == 0 /\ ~ nth i data 0 == 0) /\
  ((length data < 2)%nat -> find_crossings time data = Ok []).
Proof.
  intros Hlen.
  assert (Hrun : find_crossings time data = Ok (crossing_times time data)).
  { unfold find_crossings, crossing_times, crossing_indices.
    rewrite crossing_loop_ok; [reflexivity|].
    apply Forall_forall. intros i Hi. apply in_seq in Hi. lia. }
  split; [exact Hrun|]. split; [apply In_crossing_indices|].
  split; [apply filter_sorted, seq_sorted|]. split.
  - intros i Hi. apply In_crossing_indices in Hi. destruct Hi as [_ Hneg].
    split; intros Hz; rewrite Hz in Hneg; lra.
  - intros Hshort. rewrite Hrun. unfold crossing_times, crossing_indices.
    replace (length data - 1)%nat with 0%nat by lia. reflexivity.
Qed.

(** ** Young's modulus, continued *)

Lemma frequency_kind_of (n_cross : Z) (t_period freq : Q) :
  calc_frequency n_cross t_period = Ok freq ->
  frequency_kind n_cross t_period = kind_of_frequency freq.
Proof.
  rewrite calc_frequency_ok. intros [= <-].
  unfold frequency_kind, kind_of_frequency.
  destruct (Qltb 0 t_period) eqn:Hp.
  - apply Qltb_lt in Hp. destruct (1 <? n_cross)%Z eqn:Hn; cbn [andb].
    + apply Z.ltb_lt in Hn. symmetry.
      replace (Qltb 0 (inject_Z (n_cross - 1) / 2 / t_period)) with true;
        [reflexivity|].
      symmetry. apply Qltb_lt.
      apply Qlt_shift_div_l; [assumption|]. rewrite Qmult_0_l.
      apply Qlt_shift_div_l; [reflexivity|]. rewrite Qmult_0_l.
      change 0 with (inject_Z 0). rewrite <- Zlt_Qlt. lia.
    + replace (Qltb 0 (0 / t_period)) with false; [reflexivity|].
      symmetry. apply Qltb_ge.
      assert (Hz : 0 / t_period == 0) by (field; lra).
      rewrite Hz. apply Qle_refl.
  - now rewrite andb_false_r.
Qed.

Lemma process_trial_stages (low_pass : list Q -> result (list Q))
    (frac b h rho : Q) (rows : list (Q * Q)) (L : Z) :
  process_trial low_pass frac b h rho rows L =
  (freq <- trial_frequency low_pass frac rows ;;
   Evalue <- calc_youngs_modulus (kind_of_frequency freq) freq b h rho
               (b * h ^ 3 / 12) (inject_Z L / 1000) ;;
   Ok (freq, Evalue)).
Proof.
  unfold process_trial, trial_frequency, trial_crossings, crossings_frequency.
  destruct (low_pass _) as [filt|e]; [|reflexivity]. cbn [bind].
  destruct (crop_signal _ filt frac) as [[ctime cdata]|e]; [|reflexivity].
  cbn [bind].
  destruct (find_crossings ctime cdata) as [xs|e]; [|reflexivity]. cbn [bind].
  destruct (calc_frequency _ _) as [freq|e] eqn:Hf; [|reflexivity]. cbn [bind].
  rewrite I_moment_ok. cbn [bind].
  rewrite py_div_ok by (intros H; discriminate H). cbn [bind].
  now rewrite (frequency_kind_of _ _ _ Hf).
Qed.

(** C4.  With a nonzero moment of inertia [calc_youngs_modulus] returns the
    closed-form cantilever value in GPa, however the frequency is held; the
    moment of inertia of the pipeline is [b * h^3 / 12], a function of the
    geometry alone, and it is the one every trial's modulus is computed
    with, whatever its frequency. *)
Theorem youngs_modulus_closed_form
    (low_pass : list Q -> result (list Q)) (kind : operand)
    (frac f b h rho I L : Q) (rows : list (Q * Q)) (Lmm : Z) :
  (~ I == 0 ->
   exists E, calc_youngs_modulus kind f b h rho I L = Ok (Finite E) /\
             E == youngs_modulus_formula f b h rho I L) /\
  I_moment b h = Ok (b * h ^ 3 / 12) /\
  process_trial low_pass frac b h rho rows Lmm =
  (freq <- trial_frequency low_pass frac rows ;;
   Evalue <- calc_youngs_modulus (kind_of_frequency freq) freq b h rho
               (b * h ^ 3 / 12) (inject_Z Lmm / 1000) ;;
   Ok (freq, Evalue)).
Proof.
  split; [|split].
  - intros HI. rewrite calc_youngs_modulus_ok by assumption.
    eexists; split; [reflexivity|].
    unfold youngs_modulus_formula, cantilever_factor, giga. field. exact HI.
  - apply I_moment_ok.
  - apply process_trial_stages.
Qed.

Lemma youngs_modulus_closed_form_witness :
  (exists E, calc_youngs_modulus Numpy 50 demo_b demo_h demo_rho 1 (12 # 100)
             = Ok (Finite E) /\
             E == youngs_modulus_formula 50 demo_b demo_h demo_rho 1 (12 # 100)) /\
  (exists E, calc_youngs_modulus Python 0 0 demo_h demo_rho 1 (12 # 100)
             = Ok (Finite E) /\
             E == youngs_modulus_formula 0 0 demo_h demo_rho 1 (12 # 100)).
Proof.
  split.
  - apply (youngs_modulus_closed_form id_filter Numpy (1 # 10) 50 demo_b demo_h
             demo_rho 1 (12 # 100) alternating_rows 120).
    intros H; discriminate H.
  - apply (youngs_modulus_closed_form id_filter Python (1 # 10) 0 0 demo_h
             demo_rho 1 (12 # 100) alternating_rows 120).
    intros H; discriminate H.
Defined.

(** C9.  [calc_youngs_modulus] does have a failure mode.  With a zero
    moment of inertia a frequency held as a numpy scalar gives [nan] or an
    infinity, as the line is meant to, but the frequency 0 that
    [calc_frequency] returns is a Python int, and the division raises
    [ZeroDivisionError]: of two recordings of a beam of thickness 0, the
    one with two crossings is recorded with modulus [nan] and the one with
    a single crossing ends the run. *)
Theorem calc_youngs_modulus_zero_division :
  calc_youngs_modulus Python 0 demo_b 0 demo_rho 0 (12 # 100)
    = Raise ZeroDivisionError /\
  calc_youngs_modulus Numpy 50 demo_b 0 demo_rho 0 (12 # 100) = Ok NaN /\
  calc_youngs_modulus Numpy 50 demo_b demo_h demo_rho 0 (12 # 100)
    = Ok (Infinite false) /\
  process_trial id_filter (1 # 10) demo_b 0 demo_rho one_crossing_rows 120
    = Raise ZeroDivisionError /\
  (exists freq,
     process_trial id_filter (1 # 10) demo_b 0 demo_rho alternating_rows 120
     = Ok (freq, NaN)).
Proof.
  repeat split; try (vm_compute; reflexivity).
  eexists. vm_compute. reflexivity.
Qed.

(** ** Crossings and crop, on sample inputs *)

Lemma find_crossings_spec_witness :
  length demo_time = length demo_signal /\
  find_crossings demo_time demo_signal = Ok (crossing_times demo_time demo_signal) /\
  crossing_times demo_time demo_signal = [2 # 100; 3 # 100].
Proof.
  split; [reflexivity|]. split; [|reflexivity].
  apply (find_crossings_spec demo_time demo_signal). reflexivity.
Defined.

Lemma crop_signal_idempotent_witness :
  crop_signal demo_time demo_signal (1 # 10)
    = Ok (cropped_time, cropped_signal) /\
  crop_signal cropped_time cropped_signal (1 # 10)
    = Ok (cropped_time, cropped_signal).
Proof.
  split; [vm_compute; reflexivity|].
  apply (crop_signal_idempotent demo_time demo_signal (1 # 10)).
  vm_compute; reflexivity.
Defined.

(** ** Crop, continued *)

Lemma np_max_peak (data : list Q) (m : Q) :
  is_peak data m -> exists m', np_max (np_abs data) = Ok m' /\ m' == m.
Proof.
  intros [Hin Hmax].
  destruct (np_max_ok (np_abs data)) as [m' Hm'].
  { unfold np_abs. destruct data; [destruct Hin | discriminate]. }
  exists m'. split; [assumption|].
  destruct (np_max_spec _ _ Hm') as [Hin' Hmax'].
  apply Qle_antisym.
  - unfold np_abs in Hin'. apply in_map_iff in Hin'.
    destruct Hin' as (x & <- & Hx). now apply Hmax.
  - now apply Hmax'.
Qed.

Lemma first_exceeding_proper (data : list Q) (t t' : Q) (i : nat) :
  t == t' -> first_exceeding data t i -> first_exceeding data t' i.
Proof.
  intros Ht [Hi Hmin]. split; [now apply exceeds_proper with t|].
  intros k Hk. apply Hmin. apply exceeds_proper with t'; [now symmetry | assumption].
Qed.

Lemma last_exceeding_proper (data : list Q) (t t' : Q) (j : nat) :
  t == t' -> last_exceeding data t j -> last_exceeding data t' j.
Proof.
  intros Ht [Hj Hmax]. split; [now apply exceeds_proper with t|].
  intros k Hk. apply Hmax. apply exceeds_proper with t'; [now symmetry | assumption].
Qed.

(** C6.  When some sample is above [frac * max(|data|)] in absolute value,
    [crop_signal] returns, of both sequences, the elements from the first
    index above the threshold to the last one, both ends included. *)
Theorem crop_signal_range (time data : list Q) (frac m : Q) :
  is_peak data m ->
  (exists k, exceeds data (frac * m) k) ->
  exists i j,
    first_exceeding data (frac * m) i /\
    last_exceeding data (frac * m) j /\
    crop_signal time data frac = Ok (sub_range time i j, sub_range data i j) /\
    length (sub_range data i j) = (j - i + 1)%nat /\
    nth_error (sub_range data i j) 0 = nth_error data i /\
    nth_error (sub_range data i j) (j - i) = nth_error data j.
Proof.
  intros Hpeak [k Hk].
  destruct (np_max_peak _ _ Hpeak) as (m' & Hm' & Heq).
  assert (Ht : frac * m' == frac * m) by now rewrite Heq.
  assert (Hk' : exceeds data (frac * m') k)
    by (apply exceeds_proper with (frac * m); [now symmetry | assumption]).
  destruct (crop_signal_ok time data frac m' k Hm' Hk') as (i0 & j0 & Hc).
  destruct (crop_signal_inv _ _ _ _ _ Hc)
    as (m'' & i & j & Hm'' & Hi & Hj & Et & Ed).
  rewrite Hm' in Hm''. injection Hm'' as <-.
  exists i, j.
  assert (Hij : (i <= j)%nat) by (destruct Hi as [_ Hf]; apply Hf, Hj).
  pose proof (exceeds_lt_length _ _ _ (proj1 Hj)) as Hjlen.
  split; [now apply first_exceeding_proper with (frac * m')|].
  split; [now apply last_exceeding_proper with (frac * m')|].
  rewrite <- !py_slice_sub_range.
  split; [now rewrite Hc, Et, Ed|].
  split; [rewrite length_py_slice by lia; lia|].
  rewrite !nth_error_py_slice.
  replace (0 <? j + 1 - i)%nat with true by (symmetry; apply Nat.ltb_lt; lia).
  replace (j - i <? j + 1 - i)%nat with true by (symmetry; apply Nat.ltb_lt; lia).
  rewrite Nat.add_0_r. replace (i + (j - i))%nat with j by lia. now split.
Qed.

Lemma crop_signal_range_witness :
  exists i j,
    first_exceeding demo_signal ((1 # 10) * 5) i /\
    last_exceeding demo_signal ((1 # 10) * 5) j /\
    crop_signal demo_time demo_signal (1 # 10)
      = Ok (sub_range demo_time i j, sub_range demo_signal i j) /\
    length (sub_range demo_signal i j) = (j - i + 1)%nat /\
    nth_error (sub_range demo_signal i j) 0 = nth_error demo_signal i /\
    nth_error (sub_range demo_signal i j) (j - i) = nth_error demo_signal j.
Proof.
  apply (crop_signal_range demo_time demo_signal (1 # 10) 5).
  - split.
    + cbn. right. now left.
    + intros x Hx. cbn in Hx.
      destruct Hx as [<- | [<- | [<- | [<- | [<- | []]]]]]; discriminate.
  - exists 1%nat. exists 5. split; reflexivity.
Defined.

(** C10.  On inputs of equal length, the two outputs of [crop_signal] have
    equal length and are the same index range of their inputs, so that each
    time stays with its sample; a strictly increasing time axis stays
    strictly increasing. *)
Theorem crop_signal_pairing (time data : list Q) (frac : Q) (t' d' : list Q) :
  length time = length data ->
  crop_signal time data frac = Ok (t', d') ->
  exists i j,
    (i <= j < length data)%nat /\
    t' = sub_range time i j /\
    d' = sub_range data i j /\
    length t' = length d' /\
    (forall k, (k < length d')%nat ->
       nth_error t' k = nth_error time (i + k) /\
       nth_error d' k = nth_error data (i + k)) /\
    (increasing time -> increasing t').
Proof.
  intros Hlen H.
  destruct (crop_signal_inv _ _ _ _ _ H) as (m & i & j & Hm & Hi & Hj & -> & ->).
  assert (Hij : (i <= j)%nat) by (destruct Hi as [_ Hf]; apply Hf, Hj).
  pose proof (exceeds_lt_length _ _ _ (proj1 Hj)) as Hjlen.
  exists i, j. split; [lia|].
  split; [apply py_slice_sub_range|]. split; [apply py_slice_sub_range|].
  assert (Hld : length (py_slice data i (j + 1)) = (j + 1 - i)%nat)
    by (apply length_py_slice; lia).
  assert (Hlt : length (py_slice time i (j + 1)) = (j + 1 - i)%nat)
    by (apply length_py_slice; lia).
  split; [congruence|]. split.
  - intros k Hk. rewrite !nth_error_py_slice.
    replace (k <? j + 1 - i)%nat with true by (symmetry; apply Nat.ltb_lt; lia).
    now split.
  - intros Hinc p q x y Hpq Hp Hq.
    rewrite nth_error_py_slice in Hp, Hq.
    destruct (p <? j + 1 - i)%nat; [|discriminate].
    destruct (q <? j + 1 - i)%nat; [|discriminate].
    apply (Hinc (i + p)%nat (i + q)%nat); [lia | assumption | assumption].
Qed.

Lemma crop_signal_pairing_witness :
  exists i j,
    (i <= j < length demo_signal)%nat /\
    cropped_time = sub_range demo_time i j /\
    cropped_signal = sub_range demo_signal i j /\
    length cropped_time = length cropped_signal /\
    (forall k, (k < length cropped_signal)%nat ->
       nth_error cropped_time k = nth_error demo_time (i + k) /\
       nth_error cropped_signal k = nth_error demo_signal (i + k)) /\
    (increasing demo_time -> increasing cropped_time).
Proof.
  apply (crop_signal_pairing demo_time demo_signal (1 # 10)).
  - reflexivity.
  - vm_compute; reflexivity.
Defined.

(** C1.  When no sample is above the threshold the code does not return an
    empty trace: [idx[0]] raises [IndexError], for an all-zero signal and
    for [frac = 1] alike, and the exception ends the whole run, the trials
    already recorded included.  The stages after the crop do accept an
    empty trace: no crossing, frequency 0. *)
Theorem crop_signal_nothing_above_threshold :
  crop_signal [0; 1 # 100; 2 # 100] [0; 0; 0] (1 # 10) = Raise IndexError /\
  crop_signal [0; 1 # 100; 2 # 100] [1; -2; 1] 1 = Raise IndexError /\
  aggregate flat_csv id_filter 3 (1 # 10) demo_b demo_h demo_rho [120%Z]
    = Raise IndexError /\
  find_crossings [] [] = Ok [] /\
  calc_frequency 0 0 = Ok 0.
Proof.
  repeat split; vm_compute; reflexivity.
Qed.

(** ** Sums and means *)

Lemma py_sum_from (xs : list Q) (a : Q) :
  fold_left Qplus xs a == a + fold_right Qplus 0 xs.
Proof.
  revert a. induction xs as [|x xs IH]; intros a; cbn [fold_left fold_right].
  - ring.
  - rewrite IH. ring.
Qed.

(** Sums of floats *)

Lemma f_eq_refl (x : pyfloat) : f_eq x x.
Proof. destruct x; cbn; [apply Qeq_refl | reflexivity | exact I]. Qed.

Lemma f_eq_sym (x y : pyfloat) : f_eq x y -> f_eq y x.
Proof. destruct x, y; cbn; try tauto; intros H; now symmetry. Qed.

Lemma f_eq_trans (x y z : pyfloat) : f_eq x y -> f_eq y z -> f_eq x z.
Proof.
  destruct x, y, z; cbn; try tauto.
  - apply Qeq_trans.
  - intros; congruence.
Qed.

Lemma f_add_proper (x x' y y' : pyfloat) :
  f_eq x x' -> f_eq y y' -> f_eq (f_add x y) (f_add x' y').
Proof.
  destruct x as [a|s|], x' as [a'|s'|], y as [c|t|], y' as [c'|t'|];
    cbn [f_eq f_add]; try tauto.
  - intros H1 H2. now rewrite H1, H2.
  - intros -> ->. apply f_eq_refl.
Qed.

Lemma f_add_assoc (x y z : pyfloat) :
  f_eq (f_add (f_add x y) z) (f_add x (f_add y z)).
Proof.
  destruct x as [a|s|], y as [b|s'|], z as [c|s''|]; cbn;
    try exact I; try reflexivity; try ring.
  - destruct (Bool.eqb s' s''); cbn; [reflexivity | exact I].
  - destruct (Bool.eqb s s''); apply f_eq_refl.
  - destruct (Bool.eqb s s'); apply f_eq_refl.
  - destruct s, s', s''; cbn; try exact I; reflexivity.
  - destruct (Bool.eqb s s'); reflexivity.
Qed.

Lemma f_add_zero_l (x : pyfloat) : f_eq (f_add (Finite 0) x) x.
Proof. destruct x; cbn; [ring | reflexivity | exact I]. Qed.

Lemma f_add_zero_r (x : pyfloat) : f_eq (f_add x (Finite 0)) x.
Proof. destruct x; cbn; [ring | reflexivity | exact I]. Qed.

Lemma f_scale_proper (x y : pyfloat) (n : Q) :
  f_eq x y -> f_eq (f_scale x n) (f_scale y n).
Proof.
  destruct x, y; cbn; try tauto. intros H. now rewrite H.
Qed.

Lemma f_sum_from (xs : list pyfloat) (a : pyfloat) :
  f_eq (fold_left f_add xs a) (f_add a (fold_right f_add (Finite 0) xs)).
Proof.
  revert a. induction xs as [|x xs IH]; intros a; cbn [fold_left fold_right].
  - apply f_eq_sym, f_add_zero_r.
  - eapply f_eq_trans; [apply IH | apply f_add_assoc].
Qed.

Lemma py_mean_is_mean (xs : list pyfloat) :
  f_eq (f_scale (f_sum xs) (py_len xs)) (mean xs).
Proof.
  unfold f_sum, mean. apply f_scale_proper.
  eapply f_eq_trans; [apply f_sum_from | apply f_add_zero_l].
Qed.

Lemma py_len_nonzero {A : Type} (x : A) (xs : list A) : ~ py_len (x :: xs) == 0.
Proof.
  unfold py_len, Qeq. cbn [Qnum Qden inject_Z length]. lia.
Qed.

Lemma calc_youngs_modulus_zero_frequency (f b h rho I L : Q) (E : pyfloat) :
  calc_youngs_modulus Python f b h rho I L = Ok E -> f == 0 ->
  f_eq E (Finite 0).
Proof.
  intros H Hf.
  destruct (Qeq_bool I 0) eqn:HI.
  - apply Qeq_bool_eq in HI.
    rewrite calc_youngs_modulus_raises in H by assumption. discriminate H.
  - apply Qeq_bool_neq in HI.
    rewrite calc_youngs_modulus_ok in H by assumption.
    injection H as <-. cbn. rewrite Hf. unfold cantilever_factor, giga.
    field. exact HI.
Qed.

Lemma kind_of_zero_frequency (freq : Q) :
  freq == 0 -> kind_of_frequency freq = Python.
Proof.
  intros Hf. unfold kind_of_frequency.
  replace (Qltb 0 freq) with false; [reflexivity|].
  symmetry. apply Qltb_ge. rewrite Hf. apply Qle_refl.
Qed.

(** ** The aggregation loop *)

Section MainProperties.

Variable read_csv : Z -> Z -> option (list (Q * Q)).
Variable low_pass : list Q -> result (list Q).
Variables (trials : Z) (frac b h rho : Q).

#[local] Abbreviation process := (process_trial low_pass frac b h rho).
#[local] Abbreviation results := (trial_results read_csv low_pass frac b h rho).
#[local] Abbreviation numbers := (trial_numbers trials).
#[local] Abbreviation moduli := (length_moduli read_csv low_pass trials frac b h rho).
#[local] Abbreviation recorded := (recorded_trials read_csv trials).
#[local] Abbreviation run := (aggregate read_csv low_pass trials frac b h rho).
#[local] Abbreviation sheet_of := (worksheet read_csv low_pass trials frac b h rho).

Lemma length_average_ok (L : Z) (ws : sheet) (Es : list pyfloat) :
  length_average L ws Es = Ok (ws ++ length_summary L Es).
Proof.
  destruct Es as [|E Es]; cbn [length_average length_summary py_average bind].
  - now rewrite app_nil_r.
  - reflexivity.
Qed.

Lemma overall_average_ok (ws : sheet) (Es : list pyfloat) :
  overall_average ws Es = Ok (ws ++ overall_summary Es).
Proof.
  destruct Es as [|E Es]; cbn [overall_average overall_summary py_average bind].
  - now rewrite app_nil_r.
  - reflexivity.
Qed.

Lemma trial_loop_spec (L : Z) (ts : list Z) (ws : sheet) (tl all : list pyfloat)
    (ws' : sheet) (tl' all' : list pyfloat) :
  trial_loop read_csv low_pass frac b h rho L ts ws tl all = Ok (ws', tl', all') ->
  map (fun r => fst (fst r)) (results L ts)
    = filter (fun t => match read_csv L t with Some _ => true | None => false end) ts /\
  ws' = ws ++ map (result_row L) (results L ts) /\
  tl' = tl ++ map snd (results L ts) /\
  all' = all ++ map snd (results L ts).
Proof.
  revert ws tl all. induction ts as [|t ts IH]; intros ws tl all H;
    cbn [trial_loop] in H.
  - injection H as <- <- <-. cbn. now rewrite !app_nil_r.
  - cbn [trial_results flat_map filter].
    destruct (read_csv L t) as [rows|].
    + bind_inv H. destruct a as [freq Evalue]. rewrite Ha.
      destruct (IH _ _ _ H) as (H1 & -> & -> & ->).
      cbn [app map fst snd result_row]. rewrite <- !app_assoc.
      split; [now f_equal|]. now repeat split.
    + now apply IH.
Qed.

Lemma length_loop_spec (lengths : list Z) (ws : sheet) (all : list pyfloat)
    (ws' : sheet) (all' : list pyfloat) :
  length_loop read_csv low_pass trials frac b h rho lengths ws all = Ok (ws', all') ->
  Forall (fun L => map (fun r => fst (fst r)) (results L numbers) = recorded L)
         lengths /\
  ws' = ws ++ flat_map (fun L => map (result_row L) (results L numbers)
                                 ++ length_summary L (moduli L)) lengths /\
  all' = all ++ flat_map moduli lengths.
Proof.
  revert ws all. induction lengths as [|L lengths IH]; intros ws all H;
    cbn [length_loop] in H.
  - injection H as <- <-. cbn. now rewrite !app_nil_r.
  - bind_inv H. destruct a as [[ws1 tl] all1].
    rewrite length_average_ok in H. cbn [bind] in H.
    apply trial_loop_spec in Ha. destruct Ha as (H1 & -> & -> & ->).
    destruct (IH _ _ H) as (H2 & -> & ->).
    cbn [flat_map app]. rewrite <- !app_assoc.
    split; [now constructor|]. now split.
Qed.

Lemma aggregate_spec (lengths : list Z) (ws : sheet) (all_E : list pyfloat) :
  run lengths = Ok (ws, all_E) ->
  Forall (fun L => map (fun r => fst (fst r)) (results L numbers) = recorded L)
         lengths /\
  all_E = flat_map moduli lengths /\
  ws = sheet_of moduli lengths.
Proof.
  unfold aggregate. intros H. bind_inv H. destruct a as [ws1 all1].
  rewrite overall_average_ok in H. cbn [bind] in H. injection H as <- <-.
  apply length_loop_spec in Ha. destruct Ha as (H1 & -> & ->).
  split; [assumption|]. split; [reflexivity|].
  unfold worksheet. now rewrite <- app_assoc.
Qed.

(** C7.  When the run completes, the modulus values collected for a length
    are those of exactly its trials whose file exists; the worksheet holds,
    after the rows of each length, the mean of that length's values when
    there is one; and, last, the mean of all values when there is one. *)
Theorem aggregate_averages (lengths : list Z) (ws : sheet)
    (all_E : list pyfloat) :
  run lengths = Ok (ws, all_E) ->
  (forall L, In L lengths ->
     map (fun r => fst (fst r)) (results L numbers) = recorded L /\
     length (moduli L) = length (recorded L)) /\
  all_E = flat_map moduli lengths /\
  ws = sheet_of moduli lengths /\
  (forall L, length_summary L [] = [] /\
     forall E Es, exists avg,
       length_summary L (E :: Es) = [avg_row L avg] /\
       f_eq avg (mean (E :: Es))) /\
  overall_summary [] = [] /\
  (forall E Es, exists avg,
     overall_summary (E :: Es) = [overall_row avg] /\
     f_eq avg (mean (E :: Es))).
Proof.
  intros H. destruct (aggregate_spec _ _ _ H) as (Hrec & Hall & Hws).
  rewrite Forall_forall in Hrec.
  split; [|split; [assumption|split; [assumption|]]].
  - intros L HL. specialize (Hrec L HL). split; [assumption|].
    rewrite <- Hrec. unfold length_moduli. now rewrite !length_map.
  - split; [|split].
    + intros L. split; [reflexivity|]. intros E Es.
      eexists. split; [reflexivity | apply py_mean_is_mean].
    + reflexivity.
    + intros E Es. eexists. split; [reflexivity | apply py_mean_is_mean].
Qed.

(** C2, amended.  Every trial whose file exists, the trials of frequency 0
    included, puts its modulus into the average of its length and into the
    overall average; the modulus of a trial of frequency 0 is 0. *)
Theorem zero_frequency_trials_averaged
    (lengths : list Z) (ws : sheet) (all_E : list pyfloat)
    (L t : Z) (rows : list (Q * Q)) (freq : Q) (Evalue : pyfloat) :
  run lengths = Ok (ws, all_E) ->
  In L lengths -> In t numbers ->
  read_csv L t = Some rows ->
  process rows L = Ok (freq, Evalue) ->
  In Evalue (moduli L) /\
  In Evalue all_E /\
  In (avg_row L (f_scale (f_sum (moduli L)) (py_len (moduli L)))) ws /\
  In (overall_row (f_scale (f_sum all_E) (py_len all_E))) ws /\
  (freq == 0 -> f_eq Evalue (Finite 0)).
Proof.
  intros H HL Ht Hfile Hrun.
  destruct (aggregate_spec _ _ _ H) as (_ & Hall & Hws).
  assert (HinL : In Evalue (moduli L)).
  { unfold length_moduli. apply in_map_iff. exists (t, freq, Evalue).
    split; [reflexivity|]. unfold trial_results. apply in_flat_map.
    exists t. split; [assumption|]. rewrite Hfile, Hrun. now left. }
  assert (Hin : In Evalue all_E).
  { rewrite Hall. apply in_flat_map. now exists L. }
  split; [assumption|]. split; [assumption|]. split; [|split].
  - rewrite Hws. unfold worksheet. apply in_or_app. right.
    apply in_or_app. left. apply in_flat_map. exists L. split; [assumption|].
    apply in_or_app. right.
    destruct (moduli L) as [|E Es]; [destruct HinL | now left].
  - rewrite Hws. unfold worksheet. rewrite <- Hall. apply in_or_app. right.
    apply in_or_app. right.
    destruct all_E as [|E Es]; [destruct Hin | now left].
  - rewrite process_trial_stages in Hrun.
    bind_inv Hrun. bind_inv Hrun. injection Hrun as <- <-.
    intros Hf. rewrite (kind_of_zero_frequency _ Hf) in Ha0.
    eapply calc_youngs_modulus_zero_frequency; eassumption.
Qed.

End MainProperties.

(** ** The aggregation loop on the sample folder *)

Lemma aggregate_averages_witness :
  exists ws all_E,
    aggregate demo_csv id_filter 3 (1 # 10) demo_b demo_h demo_rho [120; 160]%Z
      = Ok (ws, all_E) /\
    all_E = flat_map (length_moduli demo_csv id_filter 3 (1 # 10) demo_b demo_h demo_rho)
                     [120; 160]%Z /\
    ws = worksheet demo_csv id_filter 3 (1 # 10) demo_b demo_h demo_rho
           (length_moduli demo_csv id_filter 3 (1 # 10) demo_b demo_h demo_rho)
           [120; 160]%Z /\
    length all_E = 2%nat.
Proof.
  eexists _, _.
  assert (Hrun : aggregate demo_csv id_filter 3 (1 # 10) demo_b demo_h demo_rho
                   [120; 160]%Z = Ok (_, _)) by (vm_compute; reflexivity).
  split; [exact Hrun|].
  destruct (aggregate_averages demo_csv id_filter 3 (1 # 10) demo_b demo_h demo_rho
              [120; 160]%Z _ _ Hrun) as (_ & Hall & Hws & _).
  split; [exact Hall|]. split; [exact Hws | reflexivity].
Defined.

(** C2, the claim as stated fails: with trial 1 of frequency 0 and trial 3
    of frequency 50 Hz, both modulus values are averaged. *)
Lemma zero_frequency_not_excluded :
  ~ excludes_zero_frequency demo_csv id_filter 3 (1 # 10) demo_b demo_h demo_rho
      [120%Z].
Proof.
  intros H.
  assert (Hrun : aggregate demo_csv id_filter 3 (1 # 10) demo_b demo_h demo_rho
                   [120%Z] = Ok (_, _)) by (vm_compute; reflexivity).
  destruct (H _ _ Hrun) as [Hall _].
  vm_compute in Hall. discriminate Hall.
Qed.

Lemma zero_frequency_trials_averaged_witness :
  exists ws all_E Evalue,
    aggregate demo_csv id_filter 3 (1 # 10) demo_b demo_h demo_rho [120%Z]
      = Ok (ws, all_E) /\
    process_trial id_filter (1 # 10) demo_b demo_h demo_rho one_crossing_rows 120
      = Ok (0, Evalue) /\
    In Evalue all_E /\
    f_eq Evalue (Finite 0) /\
    length all_E = 2%nat.
Proof.
  eexists _, _, _.
  assert (Hrun : aggregate demo_csv id_filter 3 (1 # 10) demo_b demo_h demo_rho
                   [120%Z] = Ok (_, _)) by (vm_compute; reflexivity).
  assert (Htrial : process_trial id_filter (1 # 10) demo_b demo_h demo_rho
                     one_crossing_rows 120 = Ok (0, _))
    by (vm_compute; reflexivity).
  split; [exact Hrun|]. split; [exact Htrial|].
  destruct (zero_frequency_trials_averaged demo_csv id_filter 3 (1 # 10)
              demo_b demo_h demo_rho [120%Z] _ _ 120 1 one_crossing_rows 0 _
              Hrun (or_introl eq_refl) (or_introl eq_refl) eq_refl Htrial)
    as (_ & Hin & _ & _ & Hzero).
  split; [exact Hin|]. split; [apply Hzero; reflexivity | reflexivity].
Defined.

(** * Further properties of the code *)

(** ** Crop: outcomes *)

Lemma np_max_is_peak (data : list Q) (m : Q) :
  np_max (np_abs data) = Ok m -> is_peak data m.
Proof.
  intros Hm. destruct (np_max_spec _ _ Hm) as [Hin Hmax]. split.
  - exact Hin.
  - intros x Hx. apply Hmax. unfold np_abs. now apply in_map.
Qed.

Lemma is_peak_nonneg (data : list Q) (m : Q) : is_peak data m -> 0 <= m.
Proof.
  intros [Hin _]. apply in_map_iff in Hin. destruct Hin as (x & <- & _).
  apply Qabs_nonneg.
Qed.

(** Some sample is above [frac * m] exactly when the peak [m] is. *)
Lemma exceeds_iff_peak (data : list Q) (frac m : Q) :
  is_peak data m ->
  (exists k, exceeds data (frac * m) k) <-> frac * m < m.
Proof.
  intros [Hin Hmax]. split.
  - intros (k & x & Hx & Hlt). apply Qlt_le_trans with (Qabs x); [assumption|].
    apply Hmax. eapply nth_error_In; eassumption.
  - intros Hlt. apply in_map_iff in Hin. destruct Hin as (x & Ex & Hx).
    apply In_nth_error in Hx. destruct Hx as [k Hk].
    exists k, x. split; [assumption|]. now rewrite Ex.
Qed.

Lemma below_peak_iff (frac m : Q) :
  0 <= m -> (frac * m < m <-> 0 < m /\ frac < 1).
Proof.
  intros Hm. split.
  - intros Hlt. assert (H0 : 0 < m).
    { destruct (Qlt_le_dec 0 m) as [|Hle]; [assumption|].
      assert (Hz : m == 0) by (apply Qle_antisym; assumption).
      rewrite Hz in Hlt. exfalso. revert Hlt. rewrite Qmult_0_r.
      apply Qlt_irrefl. }
    split; [assumption|].
    destruct (Qlt_le_dec frac 1) as [|Hge]; [assumption|]. exfalso.
    apply (Qlt_irrefl m). apply Qle_lt_trans with (frac * m); [|assumption].
    rewrite <- (Qmult_1_l m) at 1. apply Qmult_le_compat_r; assumption.
  - intros [H0 H1]. rewrite <- (Qmult_1_l m) at 2.
    now apply Qmult_lt_compat_r.
Qed.

(** X1.  The three outcomes of [crop_signal]: [ValueError] exactly for an
    empty signal, a cropped pair exactly when the peak is positive and
    [frac < 1], and [IndexError] in every other case (an all-zero signal,
    or [frac >= 1]). *)
Theorem crop_signal_outcome (time data : list Q) (frac : Q) :
  match crop_signal time data frac with
  | Ok _ => exists m, is_peak data m /\ 0 < m /\ frac < 1
  | Raise ValueError => data = []
  | Raise IndexError => exists m, is_peak data m /\ (m == 0 \/ 1 <= frac)
  | Raise ZeroDivisionError => False
  end.
Proof.
  destruct data as [|x data]; [reflexivity|].
  destruct (np_max_ok (np_abs (x :: data))) as [m Hm]; [discriminate|].
  pose proof (np_max_is_peak _ _ Hm) as Hpeak.
  pose proof (is_peak_nonneg _ _ Hpeak) as Hnn.
  destruct (Qlt_le_dec (frac * m) m) as [Hlt | Hge].
  - destruct (proj2 (exceeds_iff_peak _ frac _ Hpeak) Hlt) as [k Hk].
    destruct (crop_signal_ok time _ _ _ _ Hm Hk) as (i & j & ->).
    exists m. split; [assumption|]. now apply below_peak_iff.
  - rewrite (crop_signal_raises time _ frac m Hm).
    + exists m. split; [assumption|].
      destruct (Qlt_le_dec 0 m) as [Hpos | Hle].
      * right. destruct (Qlt_le_dec frac 1) as [Hf|]; [|assumption].
        exfalso. apply (Qle_not_lt _ _ Hge). now apply below_peak_iff.
      * left. now apply Qle_antisym.
    + intros k Hk. apply (Qle_not_lt _ _ Hge).
      apply (exceeds_iff_peak _ frac _ Hpeak). now exists k.
Qed.

(** X2.  A cropped signal is never empty: it starts and ends with a sample
    above the threshold, it is no longer than the input, and the cropped
    time axis is no longer than the cropped signal. *)
Theorem crop_signal_ends (time data : list Q) (frac : Q) (t' d' : list Q) :
  crop_signal time data frac = Ok (t', d') ->
  exists m,
    is_peak data m /\
    d' <> [] /\
    exceeds d' (frac * m) 0 /\
    exceeds d' (frac * m) (length d' - 1) /\
    (length t' <= length d' <= length data)%nat.
Proof.
  intros H.
  destruct (crop_signal_inv _ _ _ _ _ H) as (m & i & j & Hm & Hi & Hj & -> & ->).
  assert (Hij : (i <= j)%nat) by (destruct Hi as [_ Hf]; apply Hf, Hj).
  pose proof (exceeds_lt_length _ _ _ (proj1 Hj)) as Hjlen.
  assert (Hlen : length (py_slice data i (j + 1)) = (j + 1 - i)%nat)
    by (apply length_py_slice; lia).
  exists m. split; [now apply np_max_is_peak|]. split; [|split; [|split]].
  - intros E. rewrite E in Hlen. cbn in Hlen. lia.
  - apply exceeds_py_slice. split; [lia|]. rewrite Nat.add_0_r. apply Hi.
  - apply exceeds_py_slice. rewrite Hlen. split; [lia|].
    replace (i + (j + 1 - i - 1))%nat with j by lia. apply Hj.
  - pose proof (length_py_slice_le time i (j + 1)). lia.
Qed.

Lemma crop_signal_ends_witness :
  exists m,
    is_peak demo_signal m /\
    cropped_signal <> [] /\
    exceeds cropped_signal ((1 # 10) * m) 0 /\
    exceeds cropped_signal ((1 # 10) * m) (length cropped_signal - 1) /\
    (length cropped_time <= length cropped_signal <= length demo_signal)%nat.
Proof.
  apply (crop_signal_ends demo_time demo_signal (1 # 10)).
  vm_compute; reflexivity.
Defined.

(** X3.  Cropping keeps the peak: the largest absolute value of the cropped
    signal is that of the input, so the threshold of a second crop is the
    threshold of the first. *)
Theorem crop_signal_keeps_peak (time data : list Q) (frac : Q) (t' d' : list Q)
    (m : Q) :
  crop_signal time data frac = Ok (t', d') ->
  is_peak data m ->
  (exists m', is_peak d' m') /\ (forall m', is_peak d' m' -> m' == m).
Proof.
  intros H Hpeak.
  destruct (crop_signal_inv _ _ _ _ _ H) as (m0 & i & j & Hm0 & Hi & Hj & -> & ->).
  destruct (np_max_peak _ _ Hpeak) as (m1 & Hm1 & E1).
  rewrite Hm0 in Hm1. injection Hm1 as <-.
  destruct (np_max_cropped _ _ _ _ _ Hm0 Hi Hj) as (m2 & Hm2 & E2).
  split.
  - exists m2. now apply np_max_is_peak.
  - intros m' Hpeak'. destruct (np_max_peak _ _ Hpeak') as (m3 & Hm3 & E3).
    rewrite Hm2 in Hm3. injection Hm3 as <-.
    now rewrite <- E3, E2.
Qed.

Lemma crop_signal_keeps_peak_witness :
  (exists m', is_peak cropped_signal m') /\
  (forall m', is_peak cropped_signal m' -> m' == 5).
Proof.
  apply (crop_signal_keeps_peak demo_time demo_signal (1 # 10) cropped_time).
  - vm_compute; reflexivity.
  - split.
    + cbn. right. now left.
    + intros x Hx. cbn in Hx.
      destruct Hx as [<- | [<- | [<- | [<- | [<- | []]]]]]; discriminate.
Defined.

(** X4.  A negative [frac] crops nothing: when the signal has a nonzero
    sample, every sample is above the negative threshold, the signal comes
    back whole and the time axis is cut to the signal's length. *)
Theorem crop_signal_negative_frac (time data : list Q) (frac : Q) :
  (exists x, In x data /\ ~ x == 0) ->
  frac < 0 ->
  crop_signal time data frac = Ok (firstn (length data) time, data).
Proof.
  intros (x & Hx & Hnz) Hfrac.
  destruct (np_max_ok (np_abs data)) as [m Hm].
  { destruct data; [destruct Hx | discriminate]. }
  pose proof (np_max_is_peak _ _ Hm) as Hpeak.
  assert (Hpos : 0 < m).
  { apply Qlt_le_trans with (Qabs x); [|now apply Hpeak].
    destruct (Qle_lt_or_eq _ _ (Qabs_nonneg x)) as [|Hz]; [assumption|].
    exfalso. apply Hnz. symmetry in Hz. revert Hz.
    apply Qabs_case; intros _ Hz; lra. }
  assert (Hneg : frac * m < 0).
  { rewrite <- (Qmult_0_l m). now apply Qmult_lt_compat_r. }
  assert (Hall : forall k, (k < length data)%nat -> exceeds data (frac * m) k).
  { intros k Hk. destruct (nth_error data k) as [y|] eqn:Hy.
    - exists y. split; [assumption|].
      apply Qlt_le_trans with 0; [assumption | apply Qabs_nonneg].
    - apply nth_error_None in Hy. lia. }
  assert (Hlen : (0 < length data)%nat) by (destruct data; [destruct Hx | cbn; lia]).
  destruct (crop_signal_ok time data frac m 0 Hm (Hall _ Hlen)) as (i0 & j0 & Hc).
  rewrite Hc. destruct (crop_signal_inv _ _ _ _ _ Hc)
    as (m' & i & j & Hm' & Hi & Hj & -> & ->).
  rewrite Hm in Hm'. injection Hm' as <-.
  assert (i = 0)%nat by (destruct Hi as [_ Hf]; specialize (Hf _ (Hall _ Hlen)); lia).
  assert (j = length data - 1)%nat.
  { destruct Hj as [Hin Hl].
    assert (Hk : (length data - 1 < length data)%nat) by lia.
    specialize (Hl _ (Hall _ Hk)). apply exceeds_lt_length in Hin. lia. }
  subst i j. unfold py_slice. cbn [skipn].
  replace (length data - 1 + 1 - 0)%nat with (length data) by lia.
  now rewrite (firstn_all data).
Qed.

Lemma crop_signal_negative_frac_witness :
  crop_signal demo_time demo_signal (- (1 # 2))
    = Ok (firstn (length demo_signal) demo_time, demo_signal).
Proof.
  apply (crop_signal_negative_frac demo_time demo_signal (- (1 # 2))).
  - exists 5. split; [cbn; right; now left | intros H; discriminate H].
  - reflexivity.
Defined.

(** ** Crossings: any two arrays *)

Lemma crossing_step_outcome (time data xs : list Q) (i : nat) :
  (i < length data)%nat ->
  crossing_step time data xs i =
  if Qltb (nth (i - 1) data 0 * nth i data 0) 0
  then (if (i <? length time)%nat then Ok (xs ++ [nth i time 0])
        else Raise IndexError)
  else Ok xs.
Proof.
  intros Hd. unfold crossing_step.
  rewrite (py_get_ok data (i - 1) 0) by lia. cbn [bind].
  rewrite (py_get_ok data i 0) by lia. cbn [bind].
  destruct (Qltb _ 0); [|reflexivity].
  destruct (i <? length time)%nat eqn:Ht.
  - apply Nat.ltb_lt in Ht. now rewrite (py_get_ok time i 0) by lia.
  - apply Nat.ltb_ge in Ht. unfold py_get.
    now rewrite (proj2 (nth_error_None time i) Ht).
Qed.

Lemma crossing_loop_outcome (time data : list Q) (ixs : list nat) (xs : list Q) :
  Forall (fun i => (i < length data)%nat) ixs ->
  crossing_loop time data ixs xs =
  let found :=
    filter (fun i => Qltb (nth (i - 1) data 0 * nth i data 0) 0) ixs in
  if forallb (fun i => (i <? length time)%nat) found
  then Ok (xs ++ map (fun i => nth i time 0) found)
  else Raise IndexError.
Proof.
  intros Hall. revert xs.
  induction Hall as [|i ixs Hd _ IH]; intros xs; cbn [crossing_loop].
  - cbn. now rewrite app_nil_r.
  - rewrite crossing_step_outcome by assumption. cbn zeta. cbn [filter].
    destruct (Qltb _ 0); [|apply IH].
    cbn [forallb map]. destruct (i <? length time)%nat; [|reflexivity].
    cbn [bind andb]. rewrite IH. cbn zeta.
    destruct (forallb _ _); [|reflexivity]. now rewrite <- app_assoc.
Qed.

Lemma find_crossings_value (time data : list Q) :
  find_crossings time data =
  if forallb (fun i => (i <? length time)%nat) (crossing_indices data)
  then Ok (crossing_times time data)
  else Raise IndexError.
Proof.
  unfold find_crossings. rewrite crossing_loop_outcome; [reflexivity|].
  apply Forall_forall. intros i Hi. apply in_seq in Hi. lia.
Qed.

(** X5.  On any two arrays, [find_crossings] returns the grid times of the
    sign changes when every sign change lies inside the time axis, and
    raises [IndexError] otherwise: a time axis shorter than the signal is
    an error only if a sign change falls beyond its end, and times beyond
    the signal's length are never read. *)
Theorem find_crossings_outcome (time data : list Q) :
  (Forall (fun i => (i < length time)%nat) (crossing_indices data) ->
   find_crossings time data = Ok (crossing_times time data)) /\
  (Exists (fun i => (length time <= i)%nat) (crossing_indices data) ->
   find_crossings time data = Raise IndexError) /\
  find_crossings (firstn (length data) time) data = find_crossings time data.
Proof.
  rewrite !find_crossings_value. split; [|split].
  - intros Hall.
    replace (forallb _ _) with true; [reflexivity|]. symmetry.
    apply forallb_forall. rewrite Forall_forall in Hall.
    intros i Hi. apply Nat.ltb_lt. now apply Hall.
  - intros Hex. apply Exists_exists in Hex. destruct Hex as (i & Hi & Hle).
    destruct (forallb _ _) eqn:E; [|reflexivity].
    rewrite forallb_forall in E. specialize (E i Hi).
    apply Nat.ltb_lt in E. lia.
  - assert (Hb : forall i, In i (crossing_indices data) ->
                 (i <? length (firstn (length data) time))%nat
                 = (i <? length time)%nat).
    { intros i Hi. apply In_crossing_indices in Hi. destruct Hi as [Hi _].
      rewrite length_firstn.
      destruct (i <? length time)%nat eqn:E.
      - apply Nat.ltb_lt in E. apply Nat.ltb_lt. lia.
      - apply Nat.ltb_ge in E. apply Nat.ltb_ge. lia. }
    assert (Hf : forallb (fun i => (i <? length (firstn (length data) time))%nat)
                   (crossing_indices data)
                 = forallb (fun i => (i <? length time)%nat) (crossing_indices data)).
    { revert Hb. generalize (crossing_indices data) as l.
      induction l as [|i l IH]; intros Hb; [reflexivity|]. cbn [forallb].
      rewrite Hb by now left. f_equal. apply IH. intros k Hk. apply Hb. now right. }
    rewrite Hf.
    destruct (forallb (fun i => (i <? length time)%nat) (crossing_indices data))
      eqn:E; [|reflexivity].
    f_equal. unfold crossing_times. apply map_ext_in. intros i Hi.
    rewrite forallb_forall in E. specialize (E i Hi). apply Nat.ltb_lt in E.
    apply In_crossing_indices in Hi. destruct Hi as [Hi _].
    apply nth_error_nth. rewrite nth_error_firstn.
    replace (i <? length data)%nat with true by (symmetry; apply Nat.ltb_lt; lia).
    now apply nth_error_nth'.
Qed.

Lemma find_crossings_outcome_witness :
  find_crossings short_time zigzag_signal = Raise IndexError /\
  find_crossings zigzag_time zigzag_signal
    = Ok zigzag_crossings.
Proof.
  split.
  - apply (proj1 (proj2 (find_crossings_outcome short_time zigzag_signal))).
    apply Exists_cons_tl. apply Exists_cons_hd. cbn. lia.
  - apply (proj1 (find_crossings_outcome zigzag_time zigzag_signal)).
    repeat constructor.
Defined.

Lemma increasing_cons (x : Q) (rest : list Q) :
  (forall y, In y rest -> x < y) -> increasing rest -> increasing (x :: rest).
Proof.
  intros Hx Hrest p q a b Hpq Hp Hq.
  destruct q as [|q]; [lia|]. cbn in Hq. destruct p as [|p]; cbn in Hp.
  - injection Hp as <-. apply Hx. eapply nth_error_In; eassumption.
  - apply (Hrest p q); [lia | assumption | assumption].
Qed.

Lemma increasingb_sound (ts : list Q) : increasingb ts = true -> increasing ts.
Proof.
  induction ts as [|x rest IH].
  - intros _ p q a b _ Hp. destruct p; discriminate Hp.
  - destruct rest as [|y rest'].
    + intros _. apply increasing_cons; [intros y []|].
      intros p q a b _ Hp. destruct p; discriminate Hp.
    + cbn [increasingb]. intros H. apply andb_prop in H. destruct H as [Hxy Hrest].
      apply Qltb_lt in Hxy. specialize (IH Hrest).
      apply increasing_cons; [|assumption].
      intros z [<- | Hz]; [assumption|].
      apply In_nth_error in Hz. destruct Hz as [k Hk].
      apply Qlt_trans with y; [assumption|].
      apply (IH 0%nat (S k)); [lia | reflexivity | assumption].
Qed.

Lemma sorted_nth_error (l : list nat) (p q a b : nat) :
  StronglySorted lt l -> (p < q)%nat ->
  nth_error l p = Some a -> nth_error l q = Some b -> (a < b)%nat.
Proof.
  intros Hs. revert p q. induction Hs as [|x l Hs IH Hall]; intros p q Hpq Hp Hq.
  - destruct p; discriminate Hp.
  - destruct q as [|q]; [lia|]. cbn in Hq. destruct p as [|p]; cbn in Hp.
    + injection Hp as <-. rewrite Forall_forall in Hall.
      apply Hall. eapply nth_error_In; eassumption.
    + apply (IH p q); [lia | assumption | assumption].
Qed.

Lemma nth_error_last {A : Type} (xs : list A) (d : A) :
  xs <> [] -> nth_error xs (length xs - 1) = Some (last xs d).
Proof.
  induction xs as [|x xs IH]; [congruence|]. intros _.
  destruct xs as [|y xs]; [reflexivity|].
  change (last (x :: y :: xs) d) with (last (y :: xs) d).
  rewrite <- IH by discriminate. cbn [length]. 
  replace (S (S (length xs)) - 1)%nat with (S (S (length xs) - 1)) by lia.
  reflexivity.
Qed.

(** X6.  On a strictly increasing time axis the crossing times that
    [find_crossings] returns are strictly increasing, there are at most
    [len(data) - 1] of them, and with two or more the last is later than
    the first, so that the period [crossings[-1] - crossings[0]] taken in
    [main] is positive. *)
Theorem find_crossings_increasing (time data xs : list Q) :
  find_crossings time data = Ok xs ->
  increasing time ->
  increasing xs /\
  (length xs <= length data - 1)%nat /\
  ((2 <= length xs)%nat -> 0 < last xs 0 - hd 0 xs).
Proof.
  rewrite find_crossings_value.
  destruct (forallb _ _) eqn:E; [|discriminate]. intros [= <-] Hinc.
  rewrite forallb_forall in E.
  assert (Hsorted : StronglySorted lt (crossing_indices data))
    by apply filter_sorted, seq_sorted.
  assert (Hget : forall p x, nth_error (crossing_times time data) p = Some x ->
            exists i, nth_error (crossing_indices data) p = Some i /\
                      nth_error time i = Some x).
  { intros p x Hp. unfold crossing_times in Hp. rewrite nth_error_map in Hp.
    destruct (nth_error (crossing_indices data) p) as [i|] eqn:Hi; [|discriminate].
    cbn in Hp. injection Hp as <-. exists i. split; [reflexivity|].
    apply nth_error_nth'. apply Nat.ltb_lt, E. eapply nth_error_In; eassumption. }
  assert (Hxs : increasing (crossing_times time data)).
  { intros p q x y Hpq Hp Hq.
    destruct (Hget _ _ Hp) as (i & Hi & Hti).
    destruct (Hget _ _ Hq) as (j & Hj & Htj).
    apply (Hinc i j); [|assumption|assumption].
    eapply sorted_nth_error; eassumption. }
  split; [exact Hxs|]. split.
  - unfold crossing_times, crossing_indices. rewrite length_map.
    etransitivity; [apply filter_length_le|]. now rewrite length_seq.
  - intros Hlen. destruct (crossing_times time data) as [|x rest] eqn:Ex;
      [cbn in Hlen; lia|].
    cbn [hd].
    assert (Hlast : nth_error (x :: rest) (length (x :: rest) - 1)
                    = Some (last (x :: rest) 0)) by (apply nth_error_last; discriminate).
    assert (H0 : nth_error (x :: rest) 0 = Some x) by reflexivity.
    assert (Hpq : (0 < length (x :: rest) - 1)%nat) by lia.
    pose proof (Hxs _ _ _ _ Hpq H0 Hlast). lra.
Qed.

Lemma find_crossings_increasing_witness :
  increasing zigzag_crossings /\
  (length zigzag_crossings <= length zigzag_signal - 1)%nat /\
  0 < last zigzag_crossings 0 - hd 0 zigzag_crossings.
Proof.
  destruct (find_crossings_increasing zigzag_time zigzag_signal
              zigzag_crossings) as (H1 & H2 & H3).
  - vm_compute; reflexivity.
  - apply increasingb_sound. reflexivity.
  - split; [exact H1|]. split; [exact H2|]. apply H3. cbn. lia.
Defined.

(** ** Frequency: order and sign *)

(** X7.  For a fixed period the frequency does not decrease when the
    number of crossings grows. *)
Theorem calc_frequency_monotone (n n' : Z) (t_period f f' : Q) :
  (n <= n')%Z ->
  calc_frequency n t_period = Ok f ->
  calc_frequency n' t_period = Ok f' ->
  f <= f'.
Proof.
  intros Hn. rewrite !calc_frequency_ok. intros [= <-] [= <-].
  destruct (Qltb 0 t_period) eqn:Hp; [|apply Qle_refl].
  apply Qltb_lt in Hp. apply Qmult_le_compat_r.
  - destruct (1 <? n)%Z eqn:E1; destruct (1 <? n')%Z eqn:E2.
    + apply Qmult_le_compat_r; [|discriminate]. rewrite <- Zle_Qle. lia.
    + apply Z.ltb_lt in E1. apply Z.ltb_ge in E2. lia.
    + apply Z.ltb_lt in E2. apply Qdiv_nonneg; [|reflexivity].
      change 0 with (inject_Z 0). rewrite <- Zle_Qle. lia.
    + apply Qle_refl.
  - apply Qlt_le_weak. now apply Qinv_lt_0_compat.
Qed.

Lemma calc_frequency_monotone_witness :
  exists f f',
    calc_frequency 3 (2 # 100) = Ok f /\
    calc_frequency 5 (2 # 100) = Ok f' /\
    f <= f'.
Proof.
  eexists _, _. split; [vm_compute; reflexivity|].
  split; [vm_compute; reflexivity|].
  apply (calc_frequency_monotone 3 5 (2 # 100));
    [lia | vm_compute; reflexivity | vm_compute; reflexivity].
Defined.

(** X8.  The frequency is positive exactly when there are at least two
    crossings and the period is positive; otherwise it is 0. *)
Theorem calc_frequency_positive_iff (n_cross : Z) (t_period f : Q) :
  calc_frequency n_cross t_period = Ok f ->
  (0 < f <-> (1 < n_cross)%Z /\ 0 < t_period) /\
  (~ 0 < f -> f == 0).
Proof.
  rewrite calc_frequency_ok. intros [= <-].
  destruct (Qltb 0 t_period) eqn:Hp.
  - apply Qltb_lt in Hp. destruct (1 <? n_cross)%Z eqn:Hn.
    + apply Z.ltb_lt in Hn.
      assert (Hpos : 0 < inject_Z (n_cross - 1) / 2 / t_period).
      { apply Qlt_shift_div_l; [assumption|]. rewrite Qmult_0_l.
        apply Qlt_shift_div_l; [reflexivity|]. rewrite Qmult_0_l.
        change 0 with (inject_Z 0). rewrite <- Zlt_Qlt. lia. }
      split; [tauto|]. intros Hno. contradiction.
    + apply Z.ltb_ge in Hn.
      assert (Hz : 0 / t_period == 0) by (field; lra).
      split.
      * split; [|intros [H _]; lia]. intros H. rewrite Hz in H.
        exfalso. revert H. apply Qlt_irrefl.
      * intros _. exact Hz.
  - apply Qltb_ge in Hp. split.
    + split; [intros H; exfalso; revert H; apply Qlt_irrefl|].
      intros [_ H]. lra.
    + reflexivity.
Qed.

Lemma calc_frequency_positive_iff_witness :
  exists f, calc_frequency 3 (2 # 100) = Ok f /\ 0 < f.
Proof.
  eexists. split; [vm_compute; reflexivity|].
  apply (calc_frequency_positive_iff 3 (2 # 100)); [vm_compute; reflexivity|].
  split; [lia | reflexivity].
Defined.

(** ** Young's modulus: scaling and the pipeline *)

(** X9.  The modulus grows with the fourth power of the length and the
    square of the frequency: scaling the length by [c] and the frequency by
    [k] scales the result by [k^2 * c^4] (doubling the length gives 16
    times the modulus). *)
Theorem calc_youngs_modulus_scaling (kind : operand) (f b h rho I L k c : Q) :
  ~ I == 0 ->
  exists E E',
    calc_youngs_modulus kind f b h rho I L = Ok (Finite E) /\
    calc_youngs_modulus kind (k * f) b h rho I (c * L) = Ok (Finite E') /\
    E' == k ^ 2 * c ^ 4 * E.
Proof.
  intros HI. rewrite !calc_youngs_modulus_ok by assumption.
  eexists _, _. split; [reflexivity|]. split; [reflexivity|].
  unfold cantilever_factor, giga. field. exact HI.
Qed.

Lemma calc_youngs_modulus_scaling_witness :
  exists E E',
    calc_youngs_modulus Numpy 50 demo_b demo_h demo_rho 1 (12 # 100)
      = Ok (Finite E) /\
    calc_youngs_modulus Numpy (1 * 50) demo_b demo_h demo_rho 1 (2 * (12 # 100))
      = Ok (Finite E') /\
    E' == 1 ^ 2 * 2 ^ 4 * E.
Proof.
  apply (calc_youngs_modulus_scaling Numpy 50 demo_b demo_h demo_rho 1 (12 # 100) 1 2).
  intros H; discriminate H.
Defined.

Lemma I_moment_zero_iff (b h : Q) : b * h ^ 3 / 12 == 0 <-> b == 0 \/ h == 0.
Proof.
  split.
  - intros H.
    assert (Hp : b * (h * (h * h)) == 0).
    { setoid_replace (b * (h * (h * h))) with (12 * (b * h ^ 3 / 12)) by (field).
      rewrite H. ring. }
    apply Qmult_integral in Hp. destruct Hp as [|Hp]; [now left|]. right.
    apply Qmult_integral in Hp. destruct Hp as [|Hp]; [assumption|].
    apply Qmult_integral in Hp. now destruct Hp.
  - intros [H | H]; rewrite H; field.
Qed.

Lemma pipeline_modulus_ok (kind : operand) (f b h rho L : Q) :
  ~ b == 0 -> ~ h == 0 ->
  exists E, calc_youngs_modulus kind f b h rho (b * h ^ 3 / 12) L = Ok (Finite E) /\
            E == pipeline_modulus f h rho L.
Proof.
  intros Hb Hh.
  assert (HI : ~ b * h ^ 3 / 12 == 0).
  { intros H. apply I_moment_zero_iff in H. tauto. }
  rewrite calc_youngs_modulus_ok by assumption.
  eexists. split; [reflexivity|].
  unfold pipeline_modulus, cantilever_factor, giga. field. split; assumption.
Qed.

(** The modulus of a beam without width or thickness, by the kind of the
    frequency: [0/0] on numpy scalars, or an exception. *)
Lemma degenerate_modulus (kind : operand) (f b h rho L : Q) :
  b == 0 \/ h == 0 ->
  calc_youngs_modulus kind f b h rho (b * h ^ 3 / 12) L =
  match kind with
  | Numpy => Ok NaN
  | Python => Raise ZeroDivisionError
  end.
Proof.
  intros Hz.
  assert (HI : b * h ^ 3 / 12 == 0) by now apply I_moment_zero_iff.
  destruct kind.
  - now apply calc_youngs_modulus_raises.
  - rewrite calc_youngs_modulus_not_finite by assumption.
    assert (Hnum : (f / cantilever_factor) ^ 2 * (rho * b * h) * L ^ 4 == 0)
      by (destruct Hz as [Hz | Hz]; rewrite Hz; ring).
    now rewrite (Qeq_eq_bool _ _ Hnum).
Qed.

(** X10.  The beam width does not reach the recorded modulus: it cancels
    between [rho*b*h] and [I_moment(b,h)].  For a beam with a thickness, a
    trial processed with any two nonzero widths has the same frequency and
    an equal, finite modulus, [12 (f/0.56)^2 rho L^4 / h^2] in GPa. *)
Theorem process_trial_width_independent
    (low_pass : list Q -> result (list Q)) (frac b b' h rho : Q)
    (rows : list (Q * Q)) (L : Z) (freq : Q) (Evalue : pyfloat) :
  process_trial low_pass frac b h rho rows L = Ok (freq, Evalue) ->
  ~ b == 0 -> ~ b' == 0 -> ~ h == 0 ->
  exists E E',
    Evalue = Finite E /\
    E == pipeline_modulus freq h rho (inject_Z L / 1000) /\
    process_trial low_pass frac b' h rho rows L = Ok (freq, Finite E') /\
    E' == E.
Proof.
  rewrite !process_trial_stages. intros H Hb Hb' Hh.
  bind_inv H. bind_inv H. injection H as <- <-.
  destruct (pipeline_modulus_ok (kind_of_frequency a) a b h rho
              (inject_Z L / 1000) Hb Hh) as (E1 & HE1 & Heq1).
  rewrite Ha0 in HE1. injection HE1 as ->.
  destruct (pipeline_modulus_ok (kind_of_frequency a) a b' h rho
              (inject_Z L / 1000) Hb' Hh) as (E2 & HE2 & Heq2).
  exists E1, E2. split; [reflexivity|]. split; [assumption|].
  rewrite Ha. cbn [bind]. rewrite HE2. cbn [bind].
  split; [reflexivity|]. now rewrite Heq1, Heq2.
Qed.

Lemma process_trial_width_independent_witness :
  exists freq E E',
    process_trial id_filter (1 # 10) demo_b demo_h demo_rho alternating_rows 120
      = Ok (freq, Finite E) /\
    process_trial id_filter (1 # 10) 1 demo_h demo_rho alternating_rows 120
      = Ok (freq, Finite E') /\
    E' == E.
Proof.
  assert (Hrun : process_trial id_filter (1 # 10) demo_b demo_h demo_rho
                   alternating_rows 120 = Ok (_, _)) by (vm_compute; reflexivity).
  destruct (process_trial_width_independent id_filter (1 # 10) demo_b 1 demo_h
              demo_rho alternating_rows 120 _ _ Hrun)
    as (E & E' & HE & _ & H1 & H2); try (intros H; discriminate H).
  eexists _, E, E'. rewrite HE in Hrun.
  split; [exact Hrun|]. split; [exact H1 | exact H2].
Defined.

(** X11.  With a zero width or thickness the moment of inertia is 0.  A
    trial with a positive frequency, which [main] holds as a numpy scalar,
    is then recorded with the modulus [nan]; a trial with the frequency 0,
    a Python int, raises [ZeroDivisionError]. *)
Theorem process_trial_zero_geometry
    (low_pass : list Q -> result (list Q)) (frac b h rho : Q)
    (rows : list (Q * Q)) (L : Z) (freq : Q) :
  b == 0 \/ h == 0 ->
  trial_frequency low_pass frac rows = Ok freq ->
  process_trial low_pass frac b h rho rows L =
  if Qltb 0 freq then Ok (freq, NaN) else Raise ZeroDivisionError.
Proof.
  intros Hz Hf. rewrite process_trial_stages, Hf. cbn [bind].
  rewrite degenerate_modulus by assumption.
  unfold kind_of_frequency. now destruct (Qltb 0 freq).
Qed.

Lemma process_trial_zero_geometry_witness :
  process_trial id_filter (1 # 10) demo_b 0 demo_rho alternating_rows 120
    = Ok (20000 # 400, NaN) /\
  process_trial id_filter (1 # 10) demo_b 0 demo_rho one_crossing_rows 120
    = Raise ZeroDivisionError.
Proof.
  split.
  - apply (process_trial_zero_geometry id_filter (1 # 10) demo_b 0 demo_rho
             alternating_rows 120 (20000 # 400)).
    + right. reflexivity.
    + vm_compute. reflexivity.
  - apply (process_trial_zero_geometry id_filter (1 # 10) demo_b 0 demo_rho
             one_crossing_rows 120 0).
    + right. reflexivity.
    + vm_compute. reflexivity.
Defined.

(** ** One trial: signs, and the frequency from the crossings *)

Lemma calc_frequency_nonneg (n_cross : Z) (t_period f : Q) :
  calc_frequency n_cross t_period = Ok f -> 0 <= f.
Proof.
  rewrite calc_frequency_ok. intros [= <-].
  destruct (Qltb 0 t_period) eqn:Hp; [|apply Qle_refl].
  apply Qltb_lt in Hp. apply Qdiv_nonneg; [|assumption].
  destruct (1 <? n_cross)%Z eqn:Hn; [|apply Qle_refl].
  apply Z.ltb_lt in Hn. apply Qdiv_nonneg; [|reflexivity].
  change 0 with (inject_Z 0). rewrite <- Zle_Qle. lia.
Qed.

Lemma pipeline_modulus_nonneg (f h rho L : Q) :
  0 <= rho -> 0 <= pipeline_modulus f h rho L.
Proof.
  intros Hrho. unfold pipeline_modulus, Qdiv.
  assert (HL : 0 <= L ^ 4).
  { setoid_replace (L ^ 4) with ((L ^ 2) ^ 2) by ring. apply Qsqr_nonneg. }
  apply Qmult_le_0_compat; [|discriminate].
  apply Qmult_le_0_compat; [|apply Qinv_le_0_compat, Qsqr_nonneg].
  apply Qmult_le_0_compat; [|exact HL].
  apply Qmult_le_0_compat; [|exact Hrho].
  apply Qmult_le_0_compat; [discriminate | apply Qsqr_nonneg].
Qed.

(** X12.  A recorded trial never has a negative frequency, and its modulus
    is never an infinity.  For a beam with width and thickness the modulus
    is finite, and not negative when the density is not negative; for a
    beam without, it is [nan] and the frequency is positive. *)
Theorem process_trial_signs
    (low_pass : list Q -> result (list Q)) (frac b h rho : Q)
    (rows : list (Q * Q)) (L : Z) (freq : Q) (Evalue : pyfloat) :
  process_trial low_pass frac b h rho rows L = Ok (freq, Evalue) ->
  0 <= freq /\
  match Evalue with
  | Finite E => ~ b == 0 /\ ~ h == 0 /\ (0 <= rho -> 0 <= E)
  | NaN => (b == 0 \/ h == 0) /\ 0 < freq
  | Infinite _ => False
  end.
Proof.
  rewrite process_trial_stages. intros H.
  bind_inv H. bind_inv H. injection H as <- <-. split.
  - unfold trial_frequency in Ha. bind_inv Ha.
    unfold crossings_frequency in Ha. eapply calc_frequency_nonneg; eassumption.
  - destruct (Qeq_bool (b * h ^ 3 / 12) 0) eqn:HI.
    + apply Qeq_bool_eq, I_moment_zero_iff in HI.
      rewrite degenerate_modulus in Ha0 by assumption.
      unfold kind_of_frequency in Ha0.
      destruct (Qltb 0 a) eqn:Hpos; [|discriminate Ha0].
      injection Ha0 as <-. split; [assumption | now apply Qltb_lt].
    + apply Qeq_bool_neq in HI.
      assert (Hb : ~ b == 0) by (intros E; apply HI, I_moment_zero_iff; now left).
      assert (Hh : ~ h == 0) by (intros E; apply HI, I_moment_zero_iff; now right).
      destruct (pipeline_modulus_ok (kind_of_frequency a) a b h rho
                  (inject_Z L / 1000) Hb Hh) as (E1 & HE1 & Heq1).
      rewrite Ha0 in HE1. injection HE1 as ->.
      split; [assumption|]. split; [assumption|].
      intros Hrho. rewrite Heq1. now apply pipeline_modulus_nonneg.
Qed.

Lemma process_trial_signs_witness :
  exists freq E,
    process_trial id_filter (1 # 10) demo_b demo_h demo_rho alternating_rows 120
      = Ok (freq, Finite E) /\
    0 <= freq /\ 0 <= E.
Proof.
  eexists _, _.
  assert (Hrun : process_trial id_filter (1 # 10) demo_b demo_h demo_rho
                   alternating_rows 120 = Ok (_, Finite _))
    by (vm_compute; reflexivity).
  destruct (process_trial_signs id_filter (1 # 10) demo_b demo_h demo_rho
              alternating_rows 120 _ _ Hrun) as (Hf & _ & _ & HE).
  split; [exact Hrun|]. split; [exact Hf|]. apply HE. discriminate.
Defined.

Lemma py_slice_increasing (ts : list Q) (lo hi : nat) :
  increasing ts -> increasing (py_slice ts lo hi).
Proof.
  intros Hinc p q x y Hpq Hp Hq. rewrite nth_error_py_slice in Hp, Hq.
  destruct (p <? hi - lo)%nat; [|discriminate].
  destruct (q <? hi - lo)%nat; [|discriminate].
  apply (Hinc (lo + p)%nat (lo + q)%nat); [lia | assumption | assumption].
Qed.

Lemma crossing_times_increasing (time data : list Q) :
  forallb (fun i => (i <? length time)%nat) (crossing_indices data) = true ->
  increasing time -> increasing (crossing_times time data).
Proof.
  intros E Hinc p q x y Hpq Hp Hq. rewrite forallb_forall in E.
  unfold crossing_times in Hp, Hq. rewrite nth_error_map in Hp, Hq.
  destruct (nth_error (crossing_indices data) p) as [i|] eqn:Hi; [|discriminate].
  destruct (nth_error (crossing_indices data) q) as [j|] eqn:Hj; [|discriminate].
  cbn in Hp, Hq. injection Hp as <-. injection Hq as <-.
  apply (Hinc i j).
  - eapply sorted_nth_error; [apply filter_sorted, seq_sorted | eassumption ..].
  - apply nth_error_nth'. apply Nat.ltb_lt, E. eapply nth_error_In; eassumption.
  - apply nth_error_nth'. apply Nat.ltb_lt, E. eapply nth_error_In; eassumption.
Qed.

Lemma increasing_span (xs : list Q) :
  increasing xs -> (2 <= length xs)%nat -> hd 0 xs < last xs 0.
Proof.
  intros Hinc Hlen. destruct xs as [|x rest]; [cbn in Hlen; lia|]. cbn [hd].
  apply (Hinc 0%nat (length (x :: rest) - 1)%nat).
  - cbn [length] in *. lia.
  - reflexivity.
  - apply nth_error_last. discriminate.
Qed.

(** X13.  On a strictly increasing time column, the frequency of a trial
    is positive exactly when the cropped signal changes sign at least
    twice; it is then [((n - 1) / 2) / (last - first)] over the [n]
    crossing times, and 0 otherwise. *)
Theorem trial_frequency_from_crossings
    (low_pass : list Q -> result (list Q)) (frac : Q)
    (rows : list (Q * Q)) (xs : list Q) :
  trial_crossings low_pass frac rows = Ok xs ->
  increasing (map snd rows) ->
  exists f,
    trial_frequency low_pass frac rows = Ok f /\
    (0 < f <-> (2 <= length xs)%nat) /\
    ((2 <= length xs)%nat ->
       f == (inject_Z (Z.of_nat (length xs) - 1) / 2) / (last xs 0 - hd 0 xs)) /\
    ((length xs < 2)%nat -> f == 0).
Proof.
  intros Hx Hinc. unfold trial_frequency. rewrite Hx. cbn [bind].
  assert (Hxs : increasing xs).
  { unfold trial_crossings in Hx. bind_inv Hx. bind_inv Hx.
    destruct a0 as [ctime cdata].
    destruct (crop_signal_inv _ _ _ _ _ Ha0) as (m & i & j & _ & _ & _ & -> & _).
    rewrite find_crossings_value in Hx.
    destruct (forallb _ _) eqn:E; [|discriminate]. injection Hx as <-.
    apply crossing_times_increasing; [assumption|].
    now apply py_slice_increasing. }
  unfold crossings_frequency. rewrite calc_frequency_ok.
  eexists. split; [reflexivity|].
  destruct (1 <? Z.of_nat (length xs))%Z eqn:Hn.
  - apply Z.ltb_lt in Hn. assert (Hlen : (2 <= length xs)%nat) by lia.
    pose proof (increasing_span _ Hxs Hlen) as Hspan.
    assert (Hp : 0 < last xs 0 - hd 0 xs) by lra.
    rewrite (proj2 (Qltb_lt _ _) Hp).
    assert (Hpos : 0 < inject_Z (Z.of_nat (length xs) - 1) / 2 / (last xs 0 - hd 0 xs)).
    { apply Qlt_shift_div_l; [assumption|]. rewrite Qmult_0_l.
      apply Qlt_shift_div_l; [reflexivity|]. rewrite Qmult_0_l.
      change 0 with (inject_Z 0). rewrite <- Zlt_Qlt. lia. }
    split; [tauto|]. split; [reflexivity | lia].
  - apply Z.ltb_ge in Hn. assert (Hlen : (length xs < 2)%nat) by lia.
    replace (Qltb 0 0) with false by reflexivity.
    split; [|split; [lia | reflexivity]].
    split; [intros H; exfalso; revert H; apply Qlt_irrefl | lia].
Qed.

Lemma trial_frequency_from_crossings_witness :
  exists f,
    trial_frequency id_filter (1 # 10) alternating_rows = Ok f /\
    0 < f /\ f == 50.
Proof.
  destruct (trial_frequency_from_crossings id_filter (1 # 10) alternating_rows
              [1 # 100; 2 # 100; 3 # 100]) as (f & Hf & Hpos & Hval & _).
  - vm_compute; reflexivity.
  - apply increasingb_sound. reflexivity.
  - exists f. split; [exact Hf|]. split.
    + apply Hpos. cbn. lia.
    + rewrite Hval by (cbn; lia). reflexivity.
Defined.

(** ** The aggregation loop: completion and the shape of the worksheet *)

Section AggregateOutcomes.

Variable read_csv : Z -> Z -> option (list (Q * Q)).
Variable low_pass : list Q -> result (list Q).
Variables (trials : Z) (frac b h rho : Q).

#[local] Abbreviation process := (process_trial low_pass frac b h rho).
#[local] Abbreviation results := (trial_results read_csv low_pass frac b h rho).
#[local] Abbreviation numbers := (trial_numbers trials).
#[local] Abbreviation moduli := (length_moduli read_csv low_pass trials frac b h rho).
#[local] Abbreviation recorded := (recorded_trials read_csv trials).
#[local] Abbreviation run := (aggregate read_csv low_pass trials frac b h rho).

Lemma trial_loop_completes (L : Z) (ts : list Z) :
  (forall t rows, In t ts -> read_csv L t = Some rows ->
     exists r, process rows L = Ok r) ->
  forall ws tl all,
  exists out, trial_loop read_csv low_pass frac b h rho L ts ws tl all = Ok out.
Proof.
  induction ts as [|t ts IH]; intros Hok ws tl all; cbn [trial_loop].
  - now eexists.
  - assert (Hrest : forall t' rows, In t' ts -> read_csv L t' = Some rows ->
                      exists r, process rows L = Ok r)
      by (intros t' rows Ht'; apply Hok; now right).
    destruct (read_csv L t) as [rows|] eqn:Hfile; [|now apply IH].
    destruct (Hok t rows (or_introl eq_refl) Hfile) as [[freq Evalue] Hr].
    rewrite Hr. cbn [bind]. now apply IH.
Qed.

Lemma length_loop_completes (lengths : list Z) :
  (forall L t rows, In L lengths -> In t numbers -> read_csv L t = Some rows ->
     exists r, process rows L = Ok r) ->
  forall ws all,
  exists out,
    length_loop read_csv low_pass trials frac b h rho lengths ws all = Ok out.
Proof.
  induction lengths as [|L lengths IH]; intros Hok ws all; cbn [length_loop].
  - now eexists.
  - destruct (trial_loop_completes L numbers) with (ws := ws) (tl := @nil pyfloat) (all := all)
      as [[[ws1 tl1] all1] H1].
    { intros t rows. apply Hok. now left. }
    unfold trial_numbers in H1. rewrite H1. cbn [bind].
    rewrite length_average_ok. cbn [bind]. apply IH.
    intros L' t rows HL'. apply Hok. now right.
Qed.

Lemma results_cover_recorded (L : Z) (t : Z) (rows : list (Q * Q)) :
  map (fun r => fst (fst r)) (results L numbers) = recorded L ->
  In t numbers -> read_csv L t = Some rows ->
  exists r, process rows L = Ok r.
Proof.
  intros Hmap Ht Hfile.
  assert (Hrec : In t (recorded L)).
  { unfold recorded_trials. apply filter_In. split; [assumption|]. now rewrite Hfile. }
  rewrite <- Hmap in Hrec. apply in_map_iff in Hrec.
  destruct Hrec as ([[t0 f] E] & Heq & Hin). cbn in Heq. subst t0.
  unfold trial_results in Hin. apply in_flat_map in Hin.
  destruct Hin as (t' & _ & Hin).
  destruct (read_csv L t') as [rows'|] eqn:Hfile'; [|destruct Hin].
  destruct (process rows' L) as [[f' E']|e] eqn:Hr; [|destruct Hin].
  destruct Hin as [[= -> -> ->] | []].
  rewrite Hfile in Hfile'. injection Hfile' as <-. exists (f, E). exact Hr.
Qed.

(** X14.  The run completes exactly when every trial whose file exists is
    processed without an exception: one recording that fails in any stage
    ends the whole run, and nothing else does. *)
Theorem aggregate_completes_iff (lengths : list Z) :
  (exists ws all_E,
     aggregate read_csv low_pass trials frac b h rho lengths = Ok (ws, all_E)) <->
  (forall L t rows,
     In L lengths -> In t (trial_numbers trials) -> read_csv L t = Some rows ->
     exists r, process_trial low_pass frac b h rho rows L = Ok r).
Proof.
  split.
  - intros (ws & all_E & H) L t rows HL Ht Hfile.
    destruct (aggregate_spec _ _ _ _ _ _ _ _ _ _ H) as (Hrec & _).
    rewrite Forall_forall in Hrec.
    eapply results_cover_recorded; [now apply Hrec | eassumption ..].
  - intros Hok. unfold aggregate.
    destruct (length_loop_completes lengths Hok [header] []) as [[ws all_E] H].
    rewrite H. cbn [bind]. rewrite overall_average_ok. cbn [bind].
    now eexists _, _.
Qed.

Lemma trial_loop_skips (L : Z) (ts : list Z) (ws : sheet)
    (tl all : list pyfloat) :
  (forall t, In t ts -> read_csv L t = None) ->
  trial_loop read_csv low_pass frac b h rho L ts ws tl all = Ok (ws, tl, all).
Proof.
  induction ts as [|t ts IH]; intros Hnone; cbn [trial_loop]; [reflexivity|].
  rewrite (Hnone t) by now left. apply IH. intros t' Ht'. apply Hnone. now right.
Qed.

(** X15.  When no recording of the requested lengths exists, or the number
    of trials is not positive, the run completes with the header as the
    only row and nothing averaged. *)
Theorem aggregate_nothing_recorded (lengths : list Z) :
  (trials <= 0)%Z \/
  (forall L t, In L lengths -> read_csv L t = None) ->
  aggregate read_csv low_pass trials frac b h rho lengths = Ok ([header], []).
Proof.
  intros Hcase.
  assert (Hnone : forall L t, In L lengths -> In t numbers -> read_csv L t = None).
  { destruct Hcase as [Hle | Hnone].
    - intros L t _ Ht. unfold trial_numbers, py_range in Ht.
      replace (Z.to_nat (trials + 1 - 1)) with 0%nat in Ht by lia. destruct Ht.
    - intros L t HL _. now apply Hnone. }
  unfold aggregate.
  assert (Hloop : forall ws,
            length_loop read_csv low_pass trials frac b h rho lengths ws []
            = Ok (ws, [])).
  { clear Hcase. induction lengths as [|L lengths IH]; intros ws;
      cbn [length_loop]; [reflexivity|].
    fold numbers. rewrite trial_loop_skips by (intros t Ht; apply Hnone; [now left | assumption]).
    cbn [bind length_average]. apply IH.
    intros L' t HL'. apply Hnone. now right. }
  rewrite Hloop. reflexivity.
Qed.

Lemma summary_rows_length (lengths : list Z) :
  Forall (fun L => map (fun r => fst (fst r)) (results L numbers) = recorded L)
         lengths ->
  length (flat_map (fun L => map (result_row L) (results L numbers)
                             ++ length_summary L (moduli L)) lengths)
  = (length (flat_map moduli lengths)
     + length (filter (fun L => match recorded L with [] => false | _ => true end)
                      lengths))%nat.
Proof.
  induction 1 as [|L lengths HL _ IH]; [reflexivity|].
  cbn [flat_map filter]. rewrite !length_app, IH, length_map.
  assert (Hlen : length (moduli L) = length (recorded L)).
  { rewrite <- HL. unfold length_moduli. now rewrite !length_map. }
  assert (Hres : length (results L numbers) = length (moduli L))
    by (unfold length_moduli; now rewrite length_map).
  rewrite Hres.
  destruct (moduli L) as [|E Es]; destruct (recorded L) as [|t ts];
    cbn in Hlen; try discriminate Hlen; cbn [length_summary length]; lia.
Qed.

(** X16.  The worksheet of a completed run starts with the header and has,
    besides it, one row per recorded trial, one summary row per requested
    length that has a recorded trial, and one overall row when any trial
    was recorded. *)
Theorem aggregate_row_count (lengths : list Z) (ws : sheet)
    (all_E : list pyfloat) :
  aggregate read_csv low_pass trials frac b h rho lengths = Ok (ws, all_E) ->
  hd_error ws = Some header /\
  length ws =
  (1 + length all_E
   + length (filter (fun L => match recorded_trials read_csv trials L with
                              | [] => false
                              | _ => true
                              end) lengths)
   + match all_E with [] => 0 | _ => 1 end)%nat.
Proof.
  intros H. destruct (aggregate_spec _ _ _ _ _ _ _ _ _ _ H) as (Hrec & Hall & ->).
  unfold worksheet. split; [reflexivity|].
  rewrite !length_app, summary_rows_length by assumption.
  rewrite <- Hall. cbn [length].
  destruct all_E; cbn [overall_summary length]; lia.
Qed.

End AggregateOutcomes.

Lemma aggregate_completes_iff_witness :
  exists ws all_E,
    aggregate demo_csv id_filter 3 (1 # 10) demo_b demo_h demo_rho [120%Z]
      = Ok (ws, all_E).
Proof.
  apply (aggregate_completes_iff demo_csv id_filter 3 (1 # 10) demo_b demo_h demo_rho
           [120%Z]).
  intros L t rows [<- | []] Ht Hfile. unfold demo_csv in Hfile. cbn in Hfile.
  destruct (t =? 1)%Z.
  - injection Hfile as <-. eexists. vm_compute. reflexivity.
  - destruct (t =? 3)%Z; [|discriminate Hfile].
    injection Hfile as <-. eexists. vm_compute. reflexivity.
Defined.

Lemma aggregate_nothing_recorded_witness :
  aggregate demo_csv id_filter 3 (1 # 10) demo_b demo_h demo_rho [160%Z]
    = Ok ([header], []).
Proof.
  apply (aggregate_nothing_recorded demo_csv id_filter 3 (1 # 10) demo_b demo_h
           demo_rho [160%Z]).
  right. intros L t [<- | []]. reflexivity.
Defined.

Lemma aggregate_row_count_witness :
  exists ws all_E,
    aggregate demo_csv id_filter 3 (1 # 10) demo_b demo_h demo_rho [120; 160]%Z
      = Ok (ws, all_E) /\
    hd_error ws = Some header /\
    length ws = 5%nat.
Proof.
  eexists _, _.
  assert (Hrun : aggregate demo_csv id_filter 3 (1 # 10) demo_b demo_h demo_rho
                   [120; 160]%Z = Ok (_, _)) by (vm_compute; reflexivity).
  destruct (aggregate_row_count demo_csv id_filter 3 (1 # 10) demo_b demo_h
              demo_rho [120; 160]%Z _ _ Hrun) as [Hhd Hlen].
  split; [exact Hrun|]. split; [exact Hhd|]. rewrite Hlen. reflexivity.
Defined.

(** ** Prompts *)

Section PromptProperties.

Variable A : Type.
Variable strip : string -> string.
Variable cast : string -> option A.
Variable default : option A.

Lemma prompt_step (line : string) (rest : list string) (n : nat) :
  prompt A strip cast default (line :: rest) n =
  match answer_of A strip cast default line with
  | Some a => Answer a n rest
  | None => prompt A strip cast default rest (S n)
  end.
Proof.
  cbn [prompt]. unfold answer_of.
  destruct (strip line) as [|c s]; destruct default as [d|];
    try reflexivity; now destruct (cast _).
Qed.

Lemma prompt_skips (skipped rest : list string) (n : nat) :
  Forall (fun l => answer_of A strip cast default l = None) skipped ->
  prompt A strip cast default (skipped ++ rest) n =
  prompt A strip cast default rest (n + length skipped).
Proof.
  intros Hall. revert n. induction Hall as [|l skipped Hl _ IH]; intros n.
  - cbn. now rewrite Nat.add_0_r.
  - cbn [app]. rewrite prompt_step, Hl, IH. cbn [length]. f_equal. lia.
Qed.

(** X17.  [prompt] answers with the first line that is acceptable: a blank
    line when there is a default (the default is returned as it is, not
    converted), or a line the conversion accepts.  Every line before it
    costs one "invalid input" message, the lines after it are left unread,
    and when no line is acceptable the input runs out. *)
Theorem prompt_first_accepted (skipped : list string) :
  Forall (fun l => answer_of A strip cast default l = None) skipped ->
  prompt A strip cast default skipped 0 = EndOfInput (length skipped) /\
  forall line a rest,
    answer_of A strip cast default line = Some a ->
    prompt A strip cast default (skipped ++ line :: rest) 0
    = Answer a (length skipped) rest.
Proof.
  intros Hall. split.
  - rewrite <- (app_nil_r skipped) at 1. now rewrite prompt_skips.
  - intros line a rest Ha. rewrite prompt_skips by assumption.
    now rewrite prompt_step, Ha.
Qed.

End PromptProperties.

Lemma prompt_first_accepted_witness :
  prompt Z no_strip demo_cast (Some 7%Z) ["x"; "12"]%string 0 = EndOfInput 2 /\
  prompt Z no_strip demo_cast (Some 7%Z) ["x"; "12"; EmptyString; "3"]%string 0
    = Answer 7%Z 2 ["3"%string].
Proof.
  destruct (prompt_first_accepted Z no_strip demo_cast (Some 7%Z) ["x"; "12"]%string)
    as [Heof Hans].
  - repeat constructor.
  - split; [exact Heof|].
    apply (Hans EmptyString 7%Z ["3"%string]). reflexivity.
Defined.

(** ** Graph output mode *)

Lemma mode_in_cases (graph_mode : string) (options : list string) :
  mode_in graph_mode options = true <-> In graph_mode options.
Proof.
  unfold mode_in. rewrite existsb_exists. split.
  - intros (x & Hx & E). apply String.eqb_eq in E. now subst.
  - intros H. exists graph_mode. split; [assumption | apply String.eqb_refl].
Qed.

(** X18.  After lines 93-94 the graph mode is one of [save], [display] and
    [both], so every figure is written to a file or shown (never neither);
    an answer that is none of the three is treated as [both], and a second
    normalisation changes nothing. *)
Theorem graph_mode_normalised (raw : string) :
  In (normalise_graph_mode raw) ["save"; "display"; "both"]%string /\
  (saves_figure (normalise_graph_mode raw)
   || shows_figure (normalise_graph_mode raw))%bool = true /\
  (~ In raw ["save"; "display"; "both"]%string ->
     saves_figure (normalise_graph_mode raw) = true /\
     shows_figure (normalise_graph_mode raw) = true) /\
  normalise_graph_mode (normalise_graph_mode raw) = normalise_graph_mode raw.
Proof.
  assert (Hin : In (normalise_graph_mode raw) ["save"; "display"; "both"]%string).
  { unfold normalise_graph_mode.
    destruct (mode_in raw _) eqn:E; [now apply mode_in_cases|].
    right. right. now left. }
  split; [exact Hin|]. split; [|split].
  - destruct Hin as [<- | [<- | [<- | []]]]; reflexivity.
  - intros Hno. unfold normalise_graph_mode.
    destruct (mode_in raw _) eqn:E; [|now split].
    apply mode_in_cases in E. contradiction.
  - unfold normalise_graph_mode at 1.
    now rewrite (proj2 (mode_in_cases _ _) Hin).
Qed.

Lemma graph_mode_normalised_witness :
  saves_figure (normalise_graph_mode "pdf") = true /\
  shows_figure (normalise_graph_mode "pdf") = true.
Proof.
  apply (graph_mode_normalised "pdf").
  intros [H | [H | [H | []]]]; discriminate H.
Defined.

(** ** The filter stage *)

(** X19.  [low_pass] divides the cutoff by half the sampling rate before
    anything else: a sampling rate of 0 raises [ZeroDivisionError] without
    a filter being designed, and otherwise the critical frequency handed to
    [butter] is [cutoff / (fs / 2)], which is below 1 exactly when the
    cutoff is below the Nyquist rate. *)
Theorem low_pass_normalisation
    (butter : Z -> Q -> result (list Q * list Q))
    (filtfilt : list Q -> list Q -> list Q -> result (list Q))
    (data : list Q) (cutoff fs : Q) (order : Z) :
  (fs == 0 ->
     low_pass butter filtfilt data cutoff fs order = Raise ZeroDivisionError) /\
  (~ fs == 0 ->
     low_pass butter filtfilt data cutoff fs order
     = bind (butter order (cutoff / ((5 # 10) * fs)))
            (fun ba => filtfilt (fst ba) (snd ba) data)) /\
  (0 < fs -> (cutoff / ((5 # 10) * fs) < 1 <-> cutoff < fs / 2)).
Proof.
  split; [|split].
  - intros Hz. unfold low_pass. rewrite py_div_zero; [reflexivity|].
    rewrite Hz. reflexivity.
  - intros Hnz. unfold low_pass. rewrite py_div_ok.
    + cbn [bind]. destruct (butter _ _) as [[b a]|e]; reflexivity.
    + intros H. apply Hnz.
      setoid_replace fs with (2 * ((5 # 10) * fs)) by ring. rewrite H. reflexivity.
  - intros Hpos. assert (Hhalf : 0 < (5 # 10) * fs) by lra.
    assert (Hrw : fs / 2 == (5 # 10) * fs) by field. rewrite Hrw. split.
    + intros H. apply (Qmult_lt_compat_r _ _ ((5 # 10) * fs)) in H; [|assumption].
      setoid_replace (cutoff / ((5 # 10) * fs) * ((5 # 10) * fs)) with cutoff in H
        by (field; lra).
      now rewrite Qmult_1_l in H.
    + intros H. apply Qlt_shift_div_r; [assumption|]. now rewrite Qmult_1_l.
Qed.

Lemma low_pass_normalisation_witness :
  low_pass demo_butter demo_filtfilt zigzag_signal 70 0 4 = Raise ZeroDivisionError /\
  low_pass demo_butter demo_filtfilt zigzag_signal 70 5000 4 = Ok zigzag_signal /\
  (70 / ((5 # 10) * 5000) < 1 <-> 70 < 5000 / 2).
Proof.
  destruct (low_pass_normalisation demo_butter demo_filtfilt zigzag_signal 70 0 4)
    as (Hzero & _ & _).
  destruct (low_pass_normalisation demo_butter demo_filtfilt zigzag_signal 70 5000 4)
    as (_ & Hrun & Hnyq).
  split; [apply Hzero; reflexivity|]. split.
  - rewrite Hrun by (intros H; discriminate H). reflexivity.
  - apply Hnyq. reflexivity.
Defined.

(** ** Centring, and recordings without a signal *)

Lemma py_len_cons {A : Type} (x : A) (xs : list A) :
  py_len (x :: xs) == py_len xs + 1.
Proof.
  unfold py_len. cbn [length]. rewrite Nat2Z.inj_succ. unfold Z.succ.
  now rewrite inject_Z_plus.
Qed.

Lemma sum_shifted (xs : list Q) (m : Q) :
  fold_right Qplus 0 (map (fun x => x - m) xs)
  == fold_right Qplus 0 xs - py_len xs * m.
Proof.
  induction xs as [|x xs IH].
  - cbn. unfold py_len. cbn. ring.
  - cbn [map fold_right]. rewrite IH, py_len_cons. ring.
Qed.

Lemma sum_constant (xs : list Q) (c : Q) :
  Forall (fun x => x == c) xs -> fold_right Qplus 0 xs == py_len xs * c.
Proof.
  induction 1 as [|x xs Hx _ IH].
  - cbn. unfold py_len. cbn. ring.
  - change (x == c) in Hx. cbn [fold_right].
    rewrite py_len_cons, IH, Hx. ring.
Qed.

(** X20.  The centred level column of a recording sums to 0, keeps its
    length, and a constant level column is centred to zeros throughout. *)
Theorem centered_levels_zero_sum (qlvl : list Q) :
  qlvl <> [] ->
  py_sum (centered_levels qlvl) == 0 /\
  length (centered_levels qlvl) = length qlvl /\
  (forall c, Forall (fun x => x == c) qlvl ->
     Forall (fun x => x == 0) (centered_levels qlvl)).
Proof.
  intros Hne.
  assert (Hlen : ~ py_len qlvl == 0)
    by (destruct qlvl; [congruence | apply py_len_nonzero]).
  assert (Hmean : np_mean qlvl * py_len qlvl == fold_right Qplus 0 qlvl).
  { unfold np_mean, py_sum. rewrite py_sum_from. field. exact Hlen. }
  split; [|split].
  - unfold py_sum, centered_levels. rewrite py_sum_from, sum_shifted.
    rewrite <- Hmean. ring.
  - unfold centered_levels. apply length_map.
  - intros c Hc. pose proof (sum_constant _ _ Hc) as Hsum.
    assert (Hm : np_mean qlvl == c).
    { rewrite Hsum in Hmean.
      apply (Qmult_inj_r _ _ (py_len qlvl)); [assumption|].
      rewrite Hmean. ring. }
    unfold centered_levels. apply Forall_map.
    eapply Forall_impl; [|exact Hc]. cbn. intros x Hx. rewrite Hx, Hm. ring.
Qed.

Lemma centered_levels_zero_sum_witness :
  py_sum (centered_levels (map fst constant_rows)) == 0 /\
  Forall (fun x => x == 0) (centered_levels (map fst constant_rows)).
Proof.
  destruct (centered_levels_zero_sum (map fst constant_rows)) as (Hsum & _ & Hflat).
  - discriminate.
  - split; [exact Hsum|]. apply (Hflat 1). repeat constructor.
Defined.

Lemma crop_signal_flat (time data : list Q) (frac : Q) :
  data <> [] -> Forall (fun x => x == 0) data ->
  crop_signal time data frac = Raise IndexError.
Proof.
  intros Hne Hflat.
  destruct (np_max_ok (np_abs data)) as [m Hm].
  { destruct data; [congruence | discriminate]. }
  rewrite Forall_forall in Hflat.
  assert (Habs : forall x, In x data -> Qabs x == 0).
  { intros x Hx. rewrite (Hflat x Hx). reflexivity. }
  assert (Hz : m == 0).
  { destruct (np_max_is_peak _ _ Hm) as [Hin _]. apply in_map_iff in Hin.
    destruct Hin as (x & <- & Hx). now apply Habs. }
  apply crop_signal_raises with m; [assumption|].
  intros k (x & Hx & Hlt). apply nth_error_In in Hx.
  rewrite (Habs x Hx), Hz, Qmult_0_r in Hlt. revert Hlt. apply Qlt_irrefl.
Qed.

(** X21.  A recording whose filtered signal is empty or zero throughout
    cannot be processed: the trial raises [ValueError] for an empty signal
    and [IndexError] for an all-zero one, whatever the crop fraction and
    the beam. *)
Theorem process_trial_without_signal
    (low_pass : list Q -> result (list Q)) (frac b h rho : Q)
    (rows : list (Q * Q)) (L : Z) (filt : list Q) :
  low_pass (centered_levels (map fst rows)) = Ok filt ->
  Forall (fun x => x == 0) filt ->
  process_trial low_pass frac b h rho rows L =
  Raise (match filt with [] => ValueError | _ :: _ => IndexError end).
Proof.
  intros Hfilt Hflat. unfold process_trial.
  change (map (fun x => x - np_mean (map fst rows)) (map fst rows))
    with (centered_levels (map fst rows)).
  rewrite Hfilt. cbn [bind].
  destruct filt as [|x filt]; [reflexivity|].
  now rewrite crop_signal_flat.
Qed.

Lemma process_trial_without_signal_witness :
  process_trial id_filter (1 # 10) demo_b demo_h demo_rho constant_rows 120
    = Raise IndexError.
Proof.
  apply (process_trial_without_signal id_filter (1 # 10) demo_b demo_h demo_rho
           constant_rows 120 (centered_levels (map fst constant_rows))).
  - reflexivity.
  - repeat constructor.
Defined.
